(** * django-crm: the registration workflow, slug assignment and form
      querysets of [trunk/crm/models.py] and [trunk/crm/forms.py]

    The methods are embedded as functions over explicit database tables
    (primary key to row maps and many-to-many join tables).  A method that
    can raise returns an [outcome]; a method that also writes to the
    database or to [self] is a computation in the monad [M], whose state
    survives an exception (there is no transaction around these methods). *)

From Stdlib Require Import Ascii.
From stdpp Require Import base numbers option list strings pretty gmap sets fin_maps.

Local Open Scope Z_scope.

(** ** Python: exceptions, results and truth values *)

Inductive exn : Type :=
  | DoesNotExist
  | IntegrityError
  | OverflowError
  | AttributeError
  | ValueError
  | ValidationError (message : string).

Inductive outcome (A : Type) : Type :=
  | Return (a : A)
  | Raise (e : exn).
Arguments Return {A} a.
Arguments Raise {A} e.

Global Instance outcome_ret : MRet outcome := @Return.
Global Instance outcome_bind : MBind outcome := λ A B f m,
  match m with
  | Return a => f a
  | Raise e => Raise e
  end.

(** A computation over a state [S]: it ends with a value or an exception,
    and the state it leaves behind is kept in both cases. *)
Definition M (S A : Type) : Type := S → outcome A * S.

Definition M_ret {S A} (a : A) : M S A := λ s, (Return a, s).
Definition M_bind {S A B} (f : A → M S B) (m : M S A) : M S B := λ s,
  match m s with
  | (Return a, s') => f a s'
  | (Raise e, s') => (Raise e, s')
  end.
Global Instance M_mret S : MRet (M S) := @M_ret S.
Global Instance M_mbind S : MBind (M S) := @M_bind S.

Definition raise {S A} (e : exn) : M S A := λ s, (Raise e, s).
Definition get {S} : M S S := λ s, (Return s, s).
Definition put {S} (s : S) : M S unit := λ _, (Return tt, s).
Definition lift {S A} (o : outcome A) : M S A := λ s, (o, s).

(** [bool(pk)] for a primary key attribute: [None] and [0] are false. *)
Definition truthy (pk : option Z) : bool :=
  match pk with
  | Some k => negb (k =? 0)
  | None => false
  end.

(** The key of an instance whose [id] is true, as tested by [if self.id]. *)
Definition saved_pk (pk : option Z) : option Z :=
  if truthy pk then pk else None.

(** ** [datetime]

    A naive [datetime] is the number of microseconds since
    0001-01-01T00:00:00; [datetime.max] is the last microsecond of
    9999-12-31, whose ordinal is 3652059.  A [timedelta] is a number of
    microseconds.  Both constructors and [+] raise [OverflowError] outside
    their ranges. *)
Module datetime.

Definition us_per_day : Z := 86400 * 1000000.
Definition max_ordinal : Z := 3652059.
Definition max_timedelta_days : Z := 999999999.

Definition in_range (t : Z) : Prop := 0 ≤ t < max_ordinal * us_per_day.

Definition timedelta (days : Z) : outcome Z :=
  if bool_decide (Z.abs days ≤ max_timedelta_days)
  then Return (days * us_per_day)
  else Raise OverflowError.

Definition add (t delta : Z) : outcome Z :=
  if bool_decide (in_range (t + delta))
  then Return (t + delta)
  else Raise OverflowError.

(** The instant [days] whole days after [t]. *)
Definition days_after (t days : Z) : Z := t + days * us_per_day.

End datetime.

(** ** [django.conf.settings] *)
Module settings.
Record t := mk { ACCOUNT_ACTIVATION_DAYS : option Z }.
Definition unset : t := mk None.
End settings.

(** ** The object-relational layer

    A table maps primary keys to rows.  [Model.save()] writes the row under
    the instance's primary key when it has one (an UPDATE, or an INSERT with
    that key) and under a new key otherwise; a column declared
    [unique=True] makes the write raise [IntegrityError] when another row
    already holds the value. *)
Module orm.

(** The key of an auto-increment INSERT: above every key in use. *)
Definition fresh_pk {A} (table : gmap Z A) : Z :=
  1 + foldr Z.max 0 ((map_to_list table).*1).

Definition pk_for_save {A} (pk : option Z) (table : gmap Z A) : Z :=
  match pk with
  | Some k => k
  | None => fresh_pk table
  end.

(** [queryset.values_list(field)] *)
Definition values_list {A B} (field : A → B) (queryset : gmap Z A) : list B :=
  field <$> (map_to_list queryset).*2.

(** [queryset.exclude(id__exact=pk)] *)
Definition exclude_id {A} (pk : Z) (queryset : gmap Z A) : gmap Z A :=
  filter (λ kv, kv.1 ≠ pk) queryset.

(** Does a row other than [pk] hold [v] in the unique column [field]? *)
Definition unique_violated {A B} `{EqDecision B}
    (field : A → B) (v : B) (pk : Z) (table : gmap Z A) : bool :=
  bool_decide (map_Exists (λ k row, k ≠ pk ∧ field row = v) table).

End orm.

(** ** [caktus.django.db.util.slugify_uniquely] *)
Module util.
Section slugify_uniquely.

(** [django.template.defaultfilters.slugify] *)
Variable slugify : string → string.

(** The loop proper: try [base ++ str(i)], [base ++ str(i+1)], ... until
    one is not taken.  [fuel] bounds the number of candidates tried. *)
Fixpoint suffix_loop (base : string) (taken : list string) (i fuel : nat)
    : option string :=
  match fuel with
  | O => None
  | S fuel' =>
      let new_slug := base +:+ pretty i in
      if bool_decide (new_slug ∈ taken)
      then suffix_loop base taken (S i) fuel'
      else Some new_slug
  end.

(** Modelled from the spec: the helper [slugify_uniquely(s, queryset,
    field)] is imported by models.py from the [caktus] package, whose
    source is not part of the sources at hand.  The spec describes it as
    "a simple collision-suffix loop" that "always yields a slug unique
    across existing rows": the slug of [s] is taken as it is when no row
    of the queryset has it in [field], and otherwise a counter is
    appended and increased until the result collides with no row.
    [taken] is [queryset.values_list(field)].  With [S (length taken)]
    candidates the loop always finds a free one
    ([suffix_loop_enough_fuel]), so the last branch is never reached. *)
Definition slugify_uniquely (s : string) (taken : list string) : string :=
  let new_slug_base := slugify s in
  if bool_decide (new_slug_base ∈ taken)
  then match suffix_loop new_slug_base taken 1 (S (length taken)) with
       | Some new_slug => new_slug
       | None => new_slug_base
       end
  else new_slug_base.

End slugify_uniquely.
End util.

(** ** The rows of models.py

    Only the columns that the embedded methods read or write are kept. *)

(** [django.contrib.auth.models.User] *)
Module User.
Record t := mk {
  id : option Z;
  username : string;
  first_name : string;
  last_name : string;
  email : string;
  password : string;
  is_active : bool;
}.
Definition set_id (v : option Z) (self : t) : t :=
  mk v (username self) (first_name self) (last_name self) (email self)
     (password self) (is_active self).
Definition set_first_name (v : string) (self : t) : t :=
  mk (id self) (username self) v (last_name self) (email self)
     (password self) (is_active self).
Definition set_last_name (v : string) (self : t) : t :=
  mk (id self) (username self) (first_name self) v (email self)
     (password self) (is_active self).
Definition set_is_active (v : bool) (self : t) : t :=
  mk (id self) (username self) (first_name self) (last_name self)
     (email self) (password self) v.
End User.

(** [contactinfo.models]: a location and its phones, in the order the
    database returns them. *)
Module Phone.
Record t := mk { type : string; number : string }.
End Phone.

Module Location.
Record t := mk { type : string; phones : list Phone.t }.
End Location.

Module Contact.
Record t := mk {
  id : option Z;
  user : option Z;          (* ForeignKey(User, null=True, unique=True) *)
  first_name : string;
  last_name : string;
  email : string;
}.
Definition set_id (v : option Z) (self : t) : t :=
  mk v (user self) (first_name self) (last_name self) (email self).
Definition set_user (v : option Z) (self : t) : t :=
  mk (id self) v (first_name self) (last_name self) (email self).

Definition get_full_name (self : t) : string :=
  first_name self +:+ " " +:+ last_name self.

(** The loops of [primary_phone], innermost first: each returns the first
    phone it meets whose type is [type]. *)
Fixpoint phone_of_type (type : string) (phones : list Phone.t) : option Phone.t :=
  match phones with
  | [] => None
  | phone :: rest =>
      if bool_decide (Phone.type phone = type) then Some phone
      else phone_of_type type rest
  end.

Fixpoint location_phone (type : string) (locations : list Location.t)
    : option Phone.t :=
  match locations with
  | [] => None
  | location :: rest =>
      match phone_of_type type (Location.phones location) with
      | Some phone => Some phone
      | None => location_phone type rest
      end
  end.

Fixpoint type_phone (types : list string) (locations : list Location.t)
    : option Phone.t :=
  match types with
  | [] => None
  | type :: rest =>
      match location_phone type locations with
      | Some phone => Some phone
      | None => type_phone rest locations
      end
  end.

(** [user_locations u] is [u.locations.all()] for the user with key [u].
    Reading [self.user.locations] of a contact without a user raises. *)
Definition primary_phone (user_locations : Z → list Location.t) (self : t)
    : outcome (option Phone.t) :=
  match user self with
  | None => Raise AttributeError
  | Some u =>
      Return (type_phone ["office"; "mobile"; "home"] (user_locations u))
  end.
End Contact.

Module RelationshipType.
Record t := mk {
  id : option Z;
  name : string;            (* CharField(unique=True) *)
  slug : string;            (* CharField(unique=True, editable=False) *)
}.
Definition set_id (v : option Z) (self : t) : t := mk v (name self) (slug self).
Definition set_slug (v : string) (self : t) : t := mk (id self) (name self) v.

Section methods.
Variable slugify : string → string.

(** [super(RelationshipType, self).save()]; the state is [self] and the
    table [RelationshipType.objects]. *)
Definition super_save : M (t * gmap Z t) unit :=
  '(self, objects) ← get;
  let pk := orm.pk_for_save (id self) objects in
  if orm.unique_violated name (name self) pk objects
     || orm.unique_violated slug (slug self) pk objects
  then raise IntegrityError
  else
    let self := set_id (Some pk) self in
    put (self, <[pk := self]> objects).

Definition save : M (t * gmap Z t) unit :=
  '(self, objects) ← get;
  let queryset := objects in
  let queryset :=
    match saved_pk (id self) with
    | Some pk => orm.exclude_id pk queryset
    | None => queryset
    end in
  let self :=
    set_slug (util.slugify_uniquely slugify (name self)
                (orm.values_list slug queryset)) self in
  put (self, objects);;
  super_save.

(** A caller saving one instance after the other, carrying on after an
    [IntegrityError]. *)
Fixpoint save_each (instances : list t) (objects : gmap Z t) : gmap Z t :=
  match instances with
  | [] => objects
  | self :: rest => save_each rest (save (self, objects)).2.2
  end.

End methods.
End RelationshipType.

Definition DEFAULT_ACCOUNT_ACTIVATION_DAYS : Z := 15.

(** [django.contrib.sites.models.Site] *)
Module Site.
Record t := mk { domain : string; name : string }.
End Site.

Module LoginRegistration.
(** An instance carries the key of its contact and, once [self.contact]
    has been read, the related [Contact] object itself: every later
    [self.contact] is that same object. *)
Record t := mk {
  id : option Z;
  contact_id : Z;
  contact_cache : option Contact.t;
  date : Z;
  activation_key : string;
  activated : bool;
}.
Definition set_id (v : option Z) (self : t) : t :=
  mk v (contact_id self) (contact_cache self) (date self)
     (activation_key self) (activated self).
Definition set_contact_cache (v : option Contact.t) (self : t) : t :=
  mk (id self) (contact_id self) v (date self)
     (activation_key self) (activated self).
Definition set_activated (v : bool) (self : t) : t :=
  mk (id self) (contact_id self) (contact_cache self) (date self)
     (activation_key self) v.

(** The tables the methods read and write. *)
Record tables := mk_tables {
  auth_user : gmap Z User.t;
  crm_contact : gmap Z Contact.t;
  crm_loginregistration : gmap Z t;
}.
Definition set_auth_user (v : gmap Z User.t) (db : tables) : tables :=
  mk_tables v (crm_contact db) (crm_loginregistration db).
Definition set_crm_contact (v : gmap Z Contact.t) (db : tables) : tables :=
  mk_tables (auth_user db) v (crm_loginregistration db).
Definition set_crm_loginregistration (v : gmap Z t) (db : tables) : tables :=
  mk_tables (auth_user db) (crm_contact db) v.

(** Run a database operation from inside a method of [self]. *)
Definition on_db {A} (m : M tables A) : M (t * tables) A := λ '(self, db),
  let '(r, db') := m db in (r, (self, db')).

Section methods.
Variable slugify : string → string.
(** What [UserManager.create_user] stores for the address and the
    password it is given. *)
Variable normalize_email : string → string.
Variable make_password : string → string.

(** [User.save()]: [username] is unique. *)
Definition User_save (user : User.t) : M tables User.t :=
  db ← get;
  let pk := orm.pk_for_save (User.id user) (auth_user db) in
  if orm.unique_violated User.username (User.username user) pk (auth_user db)
  then raise IntegrityError
  else
    let user := User.set_id (Some pk) user in
    put (set_auth_user (<[pk := user]> (auth_user db)) db);;
    mret user.

(** [User.objects.create_user(username, email, password)] *)
Definition create_user (username email password : string) : M tables User.t :=
  User_save
    (User.mk None username "" "" (normalize_email email)
       (make_password password) true).

(** [Contact.save()]: [user] is unique among the rows where it is set. *)
Definition Contact_save (contact : Contact.t) : M tables Contact.t :=
  db ← get;
  let pk := orm.pk_for_save (Contact.id contact) (crm_contact db) in
  if match Contact.user contact with
     | Some _ =>
         orm.unique_violated Contact.user (Contact.user contact) pk
           (crm_contact db)
     | None => false
     end
  then raise IntegrityError
  else
    let contact := Contact.set_id (Some pk) contact in
    put (set_crm_contact (<[pk := contact]> (crm_contact db)) db);;
    mret contact.

(** The attribute [self.contact]. *)
Definition contact : M (t * tables) Contact.t :=
  '(self, db) ← get;
  match contact_cache self with
  | Some c => mret c
  | None =>
      match crm_contact db !! contact_id self with
      | Some c => put (set_contact_cache (Some c) self, db);; mret c
      | None => raise DoesNotExist
      end
  end.

(** Store a change made to the object [self.contact]. *)
Definition set_contact (c : Contact.t) : M (t * tables) unit :=
  '(self, db) ← get;
  put (set_contact_cache (Some c) self, db).

(** [self.save()] *)
Definition self_save : M (t * tables) unit :=
  '(self, db) ← get;
  let pk := orm.pk_for_save (id self) (crm_loginregistration db) in
  let self := set_id (Some pk) self in
  put (self,
       set_crm_loginregistration
         (<[pk := set_contact_cache None self]> (crm_loginregistration db)) db).

Definition activate (password : string) : M (t * tables) User.t :=
  c ← contact;
  '(_, db) ← get;
  let username :=
    util.slugify_uniquely slugify (Contact.get_full_name c)
      (orm.values_list User.username (auth_user db)) in
  c ← contact;
  user ← on_db (create_user username (Contact.email c) password);
  c ← contact;
  let user := User.set_first_name (Contact.first_name c) user in
  c ← contact;
  let user := User.set_last_name (Contact.last_name c) user in
  let user := User.set_is_active true user in
  user ← on_db (User_save user);
  c ← contact;
  set_contact (Contact.set_user (User.id user) c);;
  c ← contact;
  c ← on_db (Contact_save c);
  set_contact c;;
  '(self, db) ← get;
  put (set_activated true self, db);;
  self_save;;
  c ← contact;
  mret user.

Definition has_expired (conf : settings.t) (now : Z) (self : t) : outcome bool :=
  let expiration :=
    default DEFAULT_ACCOUNT_ACTIVATION_DAYS
      (settings.ACCOUNT_ACTIVATION_DAYS conf) in
  expiration_date ← datetime.timedelta expiration;
  deadline ← datetime.add (date self) expiration_date;
  mret (bool_decide (deadline ≤ now)).

(** The operations a caller can perform on a registration, and a caller
    performing them one after the other whatever they return. *)
Inductive operation :=
  | Activate (password : string)
  | HasExpired (conf : settings.t) (now : Z).

Definition perform (st : t * tables) (op : operation) : t * tables :=
  match op with
  | Activate password => (activate password st).2
  | HasExpired conf now => st     (* a query: it writes nothing *)
  end.

Fixpoint activations (ops : list operation) : nat :=
  match ops with
  | [] => O
  | Activate _ :: rest => S (activations rest)
  | HasExpired _ _ :: rest => activations rest
  end.

(** A value put into a template context. *)
Inductive template_value :=
  | site_value (site : Site.t)
  | text_value (text : string)
  | number_value (n : Z)
  | contact_value (c : Contact.t).

(** [render_to_string], [unicode.splitlines] and [send_mail] (called with
    [fail_silently=True]); [get_current] is what
    [Site.objects.get_current()] gives, and [DEFAULT_FROM_EMAIL] the
    setting of that name. *)
Variable render_to_string : string → list (string * template_value) → string.
Variable splitlines : string → list string.
Variable mail_result : Type.
Variable send_mail : string → string → string → list string → mail_result.
Variable get_current : outcome Site.t.
Variable DEFAULT_FROM_EMAIL : string.

Definition prepare_email (conf : settings.t) (send : bool)
    : M (t * tables) (mail_result + string * string * string * list string) :=
  let expiration :=
    default DEFAULT_ACCOUNT_ACTIVATION_DAYS
      (settings.ACCOUNT_ACTIVATION_DAYS conf) in
  current_site ← lift get_current;
  let subject :=
    render_to_string "crm/login_registration/registration_email_subject.txt"
      [("site", site_value current_site)] in
  let subject := String.concat "" (splitlines subject) in
  '(self, _) ← get;
  c ← contact;
  let message :=
    render_to_string "crm/login_registration/registration_email.txt"
      [("activation_key", text_value (activation_key self));
       ("expiration_days", number_value expiration);
       ("site", site_value current_site);
       ("contact", contact_value c)] in
  if send then
    c ← contact;
    mret (inl (send_mail subject message DEFAULT_FROM_EMAIL [Contact.email c]))
  else
    c ← contact;
    mret (inr (subject, message, DEFAULT_FROM_EMAIL, [Contact.email c])).

End methods.
End LoginRegistration.

(** ** forms.py

    forms.py is written against a schema in which the contacts of a
    project, of a business and of an interaction are users
    ([User.projects], [User.businesses], [Interaction.contacts]) and a
    person is a [Profile] of a user.  A many-to-many relation is its join
    table, a set of key pairs.  Model instances handed to a form
    ([project], [business], [crm_user]) are saved rows and are given by
    their primary keys. *)

(** [field__iexact]: equality up to the case of ASCII letters. *)
Definition ascii_lower (c : ascii) : ascii :=
  let n := N_of_ascii c in
  if ((65 <=? n) && (n <=? 90))%N then ascii_of_N (n + 32) else c.

Fixpoint lower (s : string) : string :=
  match s with
  | EmptyString => EmptyString
  | String c s' => String (ascii_lower c) (lower s')
  end.

Definition iexact (value pattern : string) : bool :=
  bool_decide (lower value = lower pattern).

Module Profile.
Record t := mk { id : Z; user : Z }.
End Profile.

Module BusinessType.
Record t := mk { name : string }.
End BusinessType.

Module Project.
Record t := mk { name : string; type : string; status : string }.
End Project.

Module Interaction.
Record t := mk {
  id : option Z;
  date : Z;
  type : string;
  completed : bool;
  project : option Z;
  memo : string;
}.
Definition set_id (v : option Z) (self : t) : t :=
  mk v (date self) (type self) (completed self) (project self) (memo self).
End Interaction.

Module forms.

Record tables := mk_tables {
  auth_user : gmap Z User.t;
  crm_profile : gmap Z Profile.t;
  crm_businesstype : gmap Z BusinessType.t;
  crm_project : gmap Z Project.t;
  crm_interaction : gmap Z Interaction.t;
  project_contacts : gset (Z * Z);          (* (project, user) *)
  business_contacts : gset (Z * Z);         (* (business, user) *)
  business_business_types : gset (Z * Z);   (* (business, business type) *)
  interaction_contacts : gset (Z * Z);      (* (interaction, user) *)
}.
Definition set_interactions (rows : gmap Z Interaction.t)
    (contacts : gset (Z * Z)) (db : tables) : tables :=
  mk_tables (auth_user db) (crm_profile db) (crm_businesstype db)
    (crm_project db) rows (project_contacts db) (business_contacts db)
    (business_business_types db) contacts.

(** The join of one row with a join table: the right-hand keys paired
    with [k], and the left-hand keys paired with [v]. *)
Definition joined (pairs : gset (Z * Z)) (k : Z) : list Z :=
  (filter (λ p, p.1 = k) (elements pairs)).*2.
Definition joined_back (pairs : gset (Z * Z)) (v : Z) : list Z :=
  (filter (λ p, p.2 = v) (elements pairs)).*1.

(** *** PersonForm *)
Module PersonForm.
Record t := mk { instance : User.t; cleaned_data_email : string }.

Definition clean_email (db : tables) (self : t) : outcome string :=
  if negb (truthy (User.id (instance self)))
     && bool_decide
          (0 < length (filter (λ u, User.email u = cleaned_data_email self)
                         (map_to_list (auth_user db)).*2))%nat
  then Raise (ValidationError "A user with that e-mail address already exists.")
  else Return (cleaned_data_email self).
End PersonForm.

(** *** EmailForm *)
Module EmailForm.
Inductive Q := Q_projects (project : Z) | Q_businesses (business : Z).

(** [User.objects.filter(search)]: one result per matching row of the
    join of the users with the relation named in [search]. *)
Definition User_filter (db : tables) (search : Q) : list (Z * User.t) :=
  '(uid, user) ← map_to_list (auth_user db);
  match search with
  | Q_projects project =>
      p ← joined_back (project_contacts db) uid;
      if bool_decide (p = project) then [(uid, user)] else []
  | Q_businesses business =>
      b ← joined_back (business_contacts db) uid;
      if bool_decide (b = business) then [(uid, user)] else []
  end.

Record t := mk { to_choices : list (Z * string) }.

Section methods.
(** [User.get_full_name] *)
Variable get_full_name : User.t → string.

Definition choice (row : Z * User.t) : Z * string :=
  (row.1, get_full_name row.2 +:+ " (" +:+ User.email row.2 +:+ ")").

Definition __init__ (db : tables) (business project : option Z) : t :=
  let search :=
    match project with
    | Some project => Some (Q_projects project)
    | None =>
        match business with
        | Some business => Some (Q_businesses business)
        | None => None
        end
    end in
  let self := mk [] in            (* forms.Form.__init__ *)
  match search with
  | Some search =>
      let self := mk [] in        (* self.fields['to'].choices = [] *)
      foldl (λ self user, mk (to_choices self ++ [choice user]))
        self (User_filter db search)
  | None => self
  end.

(** What the [except] branch raises: a [ValidationError] carrying the
    translation of its message where forms.py finds a [_] to call. *)
Variable unknown_user_error : exn.

(** [to] is the key that [cleaned_data['to']] spells; the lookup by [pk]
    converts it.  The [return] after the [try] is never reached. *)
Definition clean_to (db : tables) (to : Z) : outcome User.t :=
  match auth_user db !! to with
  | Some user => Return user
  | None => Raise unknown_user_error
  end.
End methods.
End EmailForm.

(** *** InteractionForm *)
Module InteractionForm.
(** [cleaned_data], present once the form has validated. *)
Record cleaned := mk_cleaned {
  cleaned_date : Z;
  cleaned_type : string;
  cleaned_completed : bool;
  cleaned_project : option Z;
  cleaned_contacts : list Z;
  cleaned_memo : string;
}.

Record t := mk {
  url : string;
  person : option Profile.t;
  crm_user : option Z;
  instance : Interaction.t;
  contacts_initial_choices : option (list string);
  project_queryset : list Z;
  cleaned_data : option cleaned;
}.
Definition set_instance (v : Interaction.t) (self : t) : t :=
  mk (url self) (person self) (crm_user self) v
     (contacts_initial_choices self) (project_queryset self)
     (cleaned_data self).
Definition set_cleaned_data (v : option cleaned) (self : t) : t :=
  mk (url self) (person self) (crm_user self) (instance self)
     (contacts_initial_choices self) (project_queryset self) v.

(** [self.instance.contacts.filter(
       businesses__business_types__name__iexact='client')] *)
Definition client_contacts (db : tables) (instance : Z) : list Z :=
  user ← joined (interaction_contacts db) instance;
  business ← joined_back (business_contacts db) user;
  business_type ← joined (business_business_types db) business;
  match crm_businesstype db !! business_type with
  | Some row => if iexact (BusinessType.name row) "client" then [user] else []
  | None => []
  end.

(** [crm.Project.objects.filter(contacts__profile=person)] *)
Definition projects_of_person (db : tables) (person : Profile.t) : list Z :=
  '(project, _) ← map_to_list (crm_project db);
  user ← joined (project_contacts db) project;
  '(profile, row) ← map_to_list (crm_profile db);
  if bool_decide (Profile.user row = user ∧ profile = Profile.id person)
  then [project] else [].

(** [crm.Project.objects.filter(contacts__in=users).distinct()] *)
Definition projects_with_contact_in (db : tables) (users : list Z) : list Z :=
  remove_dups
    ('(project, _) ← map_to_list (crm_project db);
     user ← joined (project_contacts db) project;
     if bool_decide (user ∈ users) then [project] else []).

Definition __init__ (db : tables) (request_POST : bool)
    (instance : Interaction.t) (url : string) (person : option Profile.t)
    (crm_user : option Z) : outcome t :=
  initial_choices ←
    (if negb request_POST then
       match saved_pk (Interaction.id instance) with
       | Some pk => Return (Some (joined (interaction_contacts db) pk))
       | None =>
           match person, crm_user with
           | Some person, Some crm_user =>
               Return (Some [Profile.user person; crm_user])
           | _, _ => Raise AttributeError
           end
       end
     else Return None);
  let projects :=
    match saved_pk (Interaction.id instance), person with
    | None, Some person => projects_of_person db person
    | Some pk, _ =>
        (* show only client projects *)
        projects_with_contact_in db (client_contacts db pk)
    | None, None => []
    end in
  Return (mk url person crm_user instance
            (fmap (M := list) pretty <$> initial_choices) projects None).

(** [instance.contacts.add(user)] *)
Definition contacts_add (instance : Interaction.t) (user : Z)
    : M (t * tables) unit :=
  '(self, db) ← get;
  match Interaction.id instance with
  | Some pk =>
      put (self,
           set_interactions (crm_interaction db)
             ({[ (pk, user) ]} ∪ interaction_contacts db) db)
  | None => raise ValueError
  end.

(** [ModelForm.save()]: refuse a form that did not validate, copy the
    cleaned fields to the instance, save it, and replace its contacts
    by the submitted ones. *)
Definition super_save : M (t * tables) Interaction.t :=
  '(self, db) ← get;
  match cleaned_data self with
  | None => raise ValueError
  | Some data =>
      let pk := orm.pk_for_save (Interaction.id (instance self))
                  (crm_interaction db) in
      let instance :=
        Interaction.mk (Some pk) (cleaned_date data) (cleaned_type data)
          (cleaned_completed data) (cleaned_project data)
          (cleaned_memo data) in
      let cleared := filter (λ p, p.1 ≠ pk) (interaction_contacts db) in
      let contacts :=
        list_to_set ((λ user, (pk, user)) <$> cleaned_contacts data)
        ∪ cleared in
      put (set_instance instance self,
           set_interactions (<[pk := instance]> (crm_interaction db))
             contacts db);;
      mret instance
  end.

Definition save : M (t * tables) Interaction.t :=
  '(self, _) ← get;
  let created := negb (truthy (Interaction.id (instance self))) in
  instance ← super_save;
  (if created then
     match person self with
     | Some the_person => contacts_add instance (Profile.user the_person)
     | None => mret tt
     end;;
     match crm_user self with
     | Some the_user => contacts_add instance the_user
     | None => mret tt
     end
   else mret tt);;
  mret instance.
End InteractionForm.

End forms.

(** ** models.py: [install]

    The tables of [django.contrib.auth] and [contenttypes] that [install]
    reads and writes.  [Group.name] is unique, so the groups are kept by
    name, each with the keys of its permissions. *)

Fixpoint starts_with (pattern s : string) : bool :=
  match pattern, s with
  | EmptyString, _ => true
  | String a pattern', String b s' => Ascii.eqb a b && starts_with pattern' s'
  | String _ _, EmptyString => false
  end.

Fixpoint contains (pattern s : string) : bool :=
  starts_with pattern s
  || match s with
     | EmptyString => false
     | String _ s' => contains pattern s'
     end.

(** [field__icontains] *)
Definition icontains (value pattern : string) : bool :=
  contains (lower pattern) (lower value).

Module ContentType.
Record t := mk { app_label : string; model : string }.
End ContentType.

Module Permission.
Record t := mk { codename : string; content_type : Z }.
End Permission.

Module auth.
Record tables := mk_tables {
  auth_group : gmap string (gset Z);
  auth_permission : gmap Z Permission.t;
  django_content_type : gmap Z ContentType.t;
}.
Definition set_auth_group (v : gmap string (gset Z)) (db : tables) : tables :=
  mk_tables v (auth_permission db) (django_content_type db).

(** [Group.objects.get_or_create(name=name)]: whether the group was
    created, and the tables. *)
Definition get_or_create (name : string) (db : tables) : bool * tables :=
  match auth_group db !! name with
  | Some _ => (false, db)
  | None => (true, set_auth_group (<[name := ∅]> (auth_group db)) db)
  end.

(** [group.permissions.add(perm)] for the group called [name]. *)
Definition permissions_add (name : string) (db : tables) (perm : Z) : tables :=
  set_auth_group (alter (λ perms, {[ perm ]} ∪ perms) name (auth_group db)) db.

(** [Permission.objects.filter(content_type__in=
       ContentType.objects.filter(Q(app_label='crm') | Q(app_label='auth')))] *)
Definition of_crm_or_auth (db : tables) (perm : Permission.t) : bool :=
  match django_content_type db !! Permission.content_type perm with
  | Some content_type =>
      bool_decide (ContentType.app_label content_type = "crm"
                   ∨ ContentType.app_label content_type = "auth")
  | None => false
  end.

Definition crm_and_auth_permissions (db : tables) : list Z :=
  (filter (λ row, of_crm_or_auth db row.2 = true)
     (map_to_list (auth_permission db))).*1.

(** [Permission.objects.filter(codename__icontains='pagelet')] *)
Definition pagelet_permissions (db : tables) : list Z :=
  (filter (λ row, icontains (Permission.codename row.2) "pagelet" = true)
     (map_to_list (auth_permission db))).*1.
End auth.

Definition install (db : auth.tables) : auth.tables :=
  let '(created, db) := auth.get_or_create "CRM Admin" db in
  let db :=
    if created
    then foldl (auth.permissions_add "CRM Admin") db
           (auth.crm_and_auth_permissions db)
    else db in
  let '(created, db) := auth.get_or_create "Pagelet Admin" db in
  if created
  then foldl (auth.permissions_add "Pagelet Admin") db
         (auth.pagelet_permissions db)
  else db.

(** * Specification *)

Section predicates.
Import LoginRegistration.

(** The configured activation day count. *)
Definition activation_days (conf : settings.t) : Z :=
  default DEFAULT_ACCOUNT_ACTIVATION_DAYS (settings.ACCOUNT_ACTIVATION_DAYS conf).

(** Expiry read as "strictly more than the day count has elapsed". *)
Definition expired_iff_strictly_later (conf : settings.t) (now : Z) (self : t) : Prop :=
  has_expired conf now self = Return true
  ↔ activation_days conf * datetime.us_per_day < now - date self.

(** The contact that [self.contact] evaluates to. *)
Definition the_contact (self : t) (db : tables) : option Contact.t :=
  match contact_cache self with
  | Some c => Some c
  | None => crm_contact db !! contact_id self
  end.

(** Referential integrity of [Contact.user]. *)
Definition user_links_resolve (db : tables) : Prop :=
  map_Forall
    (λ _ row,
       match Contact.user row with
       | Some u => is_Some (auth_user db !! u)
       | None => True
       end)
    (crm_contact db).

Global Instance user_links_resolve_dec db : Decision (user_links_resolve db).
Proof.
  apply map_Forall_dec. intros k row. destruct (Contact.user row); apply _.
Defined.

(** "Once activated, [activate] provisions no further account." *)
Definition activation_is_final (slugify normalize_email make_password : string → string)
    (self : t) (db : tables) : Prop :=
  activated self = true →
  ∀ password,
    auth_user (activate slugify normalize_email make_password password (self, db)).2.2
    = auth_user db.

(** No two rows of [RelationshipType] share a slug. *)
Definition slugs_distinct (objects : gmap Z RelationshipType.t) : Prop :=
  ∀ k1 k2 r1 r2, objects !! k1 = Some r1 → objects !! k2 = Some r2 →
    RelationshipType.slug r1 = RelationshipType.slug r2 → k1 = k2.
End predicates.

Section form_predicates.
Import forms.

(** [user] is a contact of a business that has a business type named
    "client", in whatever case. *)
Definition client_contact (db : tables) (user : Z) : Prop :=
  ∃ business business_type row,
    (business, user) ∈ business_contacts db
    ∧ (business, business_type) ∈ business_business_types db
    ∧ crm_businesstype db !! business_type = Some row
    ∧ lower (BusinessType.name row) = "client".

Definition has_client_contact (db : tables) (project : Z) : Prop :=
  ∃ user, (project, user) ∈ project_contacts db ∧ client_contact db user.

(** "Every project the interaction form offers has a client contact." *)
Definition offers_only_client_projects (db : tables) (request_POST : bool)
    (instance : Interaction.t) (url : string) (person : option Profile.t)
    (crm_user : option Z) : Prop :=
  ∀ form,
    InteractionForm.__init__ db request_POST instance url person crm_user
    = Return form →
    ∀ project, project ∈ InteractionForm.project_queryset form →
      has_client_contact db project.
End form_predicates.

Section more_predicates.
Import LoginRegistration.

(** No two accounts share a username. *)
Definition usernames_distinct (db : tables) : Prop :=
  map_Forall
    (λ k1 u1,
       map_Forall (λ k2 u2, User.username u1 = User.username u2 → k1 = k2)
         (auth_user db))
    (auth_user db).

(** No two contacts are linked to the same account. *)
Definition links_distinct (db : tables) : Prop :=
  map_Forall
    (λ k1 c1,
       map_Forall
         (λ k2 c2,
            is_Some (Contact.user c1) → Contact.user c1 = Contact.user c2 →
            k1 = k2)
         (crm_contact db))
    (crm_contact db).

Global Instance usernames_distinct_dec db : Decision (usernames_distinct db).
Proof. unfold usernames_distinct. apply _. Defined.

Global Instance links_distinct_dec db : Decision (links_distinct db).
Proof. unfold links_distinct. apply _. Defined.
End more_predicates.

(** [s] has [pattern] somewhere inside. *)
Definition has_substring (pattern s : string) : Prop :=
  ∃ before after, s = before +:+ pattern +:+ after.


(** ** Example data *)

(** A stand-in for [slugify] on plain names: lower case, hyphens for
    spaces. *)
Fixpoint hyphenate (s : string) : string :=
  match s with
  | EmptyString => EmptyString
  | String c s' =>
      String (if Ascii.eqb c " " then "-"%char else ascii_lower c) (hyphenate s')
  end.

(** Jane Doe registers on day 733601. *)
Definition jane : Contact.t :=
  Contact.mk (Some 1) None "Jane" "Doe" "jane@example.com".

Definition jane_registration : LoginRegistration.t :=
  LoginRegistration.mk (Some 1) 1 None (733601 * datetime.us_per_day)
    "5f2a9c" false.

Definition jane_db : LoginRegistration.tables :=
  LoginRegistration.mk_tables ∅ {[ 1 := jane ]} {[ 1 := jane_registration ]}.

(** Two users; Ann (7) is a contact of project 1, and profile 3 is hers.
    There is no business. *)
Definition ann : User.t :=
  User.mk (Some 7) "ann" "Ann" "Lee" "ann@example.com" "" true.
Definition bob : User.t :=
  User.mk (Some 9) "bob" "Bob" "Ray" "bob@example.com" "" true.

Definition office_db : forms.tables :=
  forms.mk_tables {[ 7 := ann; 9 := bob ]} {[ 3 := Profile.mk 3 7 ]} ∅
    {[ 1 := Project.mk "Website" "software" "accepted" ]}
    {[ 5 := Interaction.mk (Some 5) 0 "phone" false None "" ]}
    {[ (1, 7) ]} ∅ ∅ {[ (5, 9) ]}.

(** A new interaction, not yet saved. *)
Definition new_interaction : Interaction.t :=
  Interaction.mk None 0 "email" false None "".

(** A signup with Ann's address, and the form for a new interaction of
    Ann, submitted with Ann as its only contact by the CRM user Bob. *)
Definition signup_form : forms.PersonForm.t :=
  forms.PersonForm.mk (User.mk None "" "Ann" "Other" "" "" true)
    "ann@example.com".

Definition submitted_form : forms.InteractionForm.t :=
  forms.InteractionForm.mk "/contacts/" (Some (Profile.mk 3 7)) (Some 9)
    new_interaction None [1]
    (Some (forms.InteractionForm.mk_cleaned 0 "email" true (Some 1) [7] "hello")).

(** A site, and a renderer that lists the names of the context it is
    given after the name of the template. *)
Definition example_site : Site.t := Site.mk "crm.example.com" "CRM".

Definition render_names (template : string)
    (context : list (string * LoginRegistration.template_value)) : string :=
  template +:+ "?" +:+ String.concat "," context.*1.

(** One relationship type in the table, and a new one to be saved. *)
Definition boss_types : gmap Z RelationshipType.t :=
  {[ 1 := RelationshipType.mk (Some 1) "Boss" "boss" ]}.

Definition team_lead : RelationshipType.t :=
  RelationshipType.mk None "Team Lead" "".

(** Permissions of the apps crm (content type 1), auth (2) and pagelets
    (3), and a site where the group CRM Admin exists already, with one
    permission. *)
Definition site_permissions : auth.tables :=
  auth.mk_tables {[ "CRM Admin" := {[ 11 ]} ]}
    {[ 11 := Permission.mk "add_contact" 1;
       12 := Permission.mk "change_user" 2;
       13 := Permission.mk "add_Pagelet" 3;
       14 := Permission.mk "change_inlinepagelet" 3 ]}
    {[ 1 := ContentType.mk "crm" "contact";
       2 := ContentType.mk "auth" "user";
       3 := ContentType.mk "pagelets" "pagelet" ]}.

(** Two locations of user 7: home with a home phone and a mobile, office
    with a fax. *)
Definition ann_locations (user : Z) : list Location.t :=
  if bool_decide (user = 7)
  then [Location.mk "home" [Phone.mk "home" "555-0100"; Phone.mk "mobile" "555-0101"];
        Location.mk "office" [Phone.mk "fax" "555-0102"]]
  else [].

Definition ann_contact : Contact.t :=
  Contact.mk (Some 4) (Some 7) "Ann" "Lee" "ann@example.com".

(** A registration whose contact, number 2, does not exist. *)
Definition stray_registration : LoginRegistration.t :=
  LoginRegistration.mk None 2 None (733601 * datetime.us_per_day) "0c1d" false.

(** Jane's contact once linked to account 1. *)
Definition jane_linked : Contact.t :=
  Contact.mk (Some 1) (Some 1) "Jane" "Doe" "jane@example.com".

(** The registration and the tables once Jane has activated her account. *)
Definition jane_activated : LoginRegistration.t * LoginRegistration.tables :=
  (LoginRegistration.activate hyphenate id id "s3cret"
     (jane_registration, jane_db)).2.

(** ** Reasoning about computations in [M] *)

Ltac run :=
  repeat (progress (cbn [mbind mret M_mbind M_mret M_bind M_ret get put raise
                         lift fst snd] in *)
          || unfold mbind, mret, M_mbind, M_mret, M_bind, M_ret, get, put,
                    raise, lift in *).

(** ** C1: expiry *)

Lemma has_expired_value conf now self :
  Z.abs (activation_days conf) ≤ datetime.max_timedelta_days →
  datetime.in_range
    (LoginRegistration.date self + activation_days conf * datetime.us_per_day) →
  LoginRegistration.has_expired conf now self
  = Return (bool_decide (activation_days conf * datetime.us_per_day
                         ≤ now - LoginRegistration.date self)).
Proof.
  intros Hdays Hrange.
  unfold LoginRegistration.has_expired. fold (activation_days conf).
  unfold datetime.timedelta. rewrite bool_decide_eq_true_2 by done.
  cbn [mbind outcome_bind]. unfold datetime.add.
  rewrite bool_decide_eq_true_2 by done.
  cbn [mbind outcome_bind mret outcome_ret]. f_equal.
  apply bool_decide_ext. lia.
Qed.

(** C1 (as amended).  Whenever the deadline [date + activation_days] is a
    representable datetime, [has_expired()] returns, and it returns true
    exactly when the time elapsed since [date] is at least the configured
    day count: the boundary instant itself counts as expired.  With the
    default of 15 days a registration is not expired 14 days after its
    date and is expired 16 days after it. *)
Theorem has_expired_from_deadline conf now self :
  Z.abs (activation_days conf) ≤ datetime.max_timedelta_days →
  datetime.in_range
    (LoginRegistration.date self + activation_days conf * datetime.us_per_day) →
  (LoginRegistration.has_expired conf now self = Return true
   ↔ activation_days conf * datetime.us_per_day ≤ now - LoginRegistration.date self)
  ∧ (LoginRegistration.has_expired conf now self = Return false
     ↔ now - LoginRegistration.date self < activation_days conf * datetime.us_per_day)
  ∧ (activation_days conf = 15 →
     now = datetime.days_after (LoginRegistration.date self) 14 →
     LoginRegistration.has_expired conf now self = Return false)
  ∧ (activation_days conf = 15 →
     now = datetime.days_after (LoginRegistration.date self) 16 →
     LoginRegistration.has_expired conf now self = Return true).
Proof.
  intros Hdays Hrange. rewrite (has_expired_value conf now self Hdays Hrange).
  repeat split.
  - intros [= H%bool_decide_eq_true]. done.
  - intros H. by rewrite bool_decide_eq_true_2.
  - intros [= H%bool_decide_eq_false]. lia.
  - intros H. rewrite bool_decide_eq_false_2; [done | lia].
  - intros Hd ->. rewrite Hd. unfold datetime.days_after, datetime.us_per_day.
    rewrite bool_decide_eq_false_2; [done | lia].
  - intros Hd ->. rewrite Hd. unfold datetime.days_after, datetime.us_per_day.
    rewrite bool_decide_eq_true_2; [done | lia].
Qed.

Lemma has_expired_from_deadline_witness :
  LoginRegistration.has_expired settings.unset
    (datetime.days_after (733601 * datetime.us_per_day) 14) jane_registration
  = Return false.
Proof.
  apply (has_expired_from_deadline settings.unset
           (datetime.days_after (733601 * datetime.us_per_day) 14)
           jane_registration).
  - vm_compute. discriminate.
  - vm_compute. split; [discriminate | reflexivity].
  - reflexivity.
  - reflexivity.
Defined.

(** C1 as stated fails on the boundary: exactly 15 days after its date the
    registration is reported expired although no more than 15 days have
    elapsed. *)
Lemma has_expired_on_the_boundary :
  ¬ expired_iff_strictly_later settings.unset
      (datetime.days_after (733601 * datetime.us_per_day) 15) jane_registration.
Proof.
  unfold expired_iff_strictly_later. intros [Hexpired _].
  assert (LoginRegistration.has_expired settings.unset
            (datetime.days_after (733601 * datetime.us_per_day) 15)
            jane_registration = Return true) as H by (vm_compute; reflexivity).
  apply Hexpired in H. vm_compute in H. discriminate.
Qed.

(** ** The collision-suffix loop *)

Section slug_loop.
Variable slugify : string → string.

Lemma suffix_loop_sound base taken i fuel s :
  util.suffix_loop base taken i fuel = Some s →
  (s ∉ taken) ∧ ∃ j : nat, s = base +:+ pretty j.
Proof.
  revert i. induction fuel as [|fuel IH]; intros i; [done|].
  cbn [util.suffix_loop]. case_bool_decide as Hin.
  - apply IH.
  - intros [= <-]. eauto.
Qed.

Lemma suffix_loop_exhausted base taken i fuel :
  util.suffix_loop base taken i fuel = None →
  ∀ j : nat, (i ≤ j < i + fuel)%nat → base +:+ pretty j ∈ taken.
Proof.
  revert i. induction fuel as [|fuel IH]; intros i Hnone j Hj; [lia|].
  cbn [util.suffix_loop] in Hnone. case_bool_decide as Hin; [|done].
  destruct (decide (j = i)) as [->|Hne]; [done|].
  apply (IH (S i)); [done | lia].
Qed.

(** Pigeonhole: [fuel] distinct candidates cannot all be among fewer
    than [fuel] taken values. *)
Lemma suffix_loop_enough_fuel base taken i fuel :
  (length taken < fuel)%nat → is_Some (util.suffix_loop base taken i fuel).
Proof.
  intros Hfuel.
  destruct (util.suffix_loop base taken i fuel) as [s|] eqn:Hloop; [eauto|].
  exfalso.
  pose proof (suffix_loop_exhausted _ _ _ _ Hloop) as Hall.
  set (candidates := (λ j : nat, base +:+ pretty j) <$> seq i fuel).
  assert (NoDup candidates) as Hnodup.
  { apply NoDup_fmap_2; [|apply NoDup_seq].
    intros j1 j2 Heq. apply (inj (String.append base)) in Heq.
    by apply (inj pretty) in Heq. }
  assert (candidates ⊆+ taken) as Hsub.
  { apply NoDup_submseteq; [done|].
    intros x (j & -> & Hj%elem_of_seq)%list_elem_of_fmap. apply Hall. lia. }
  apply submseteq_length in Hsub.
  unfold candidates in Hsub. rewrite length_fmap, length_seq in Hsub. lia.
Qed.

Lemma slugify_uniquely_fresh s taken :
  util.slugify_uniquely slugify s taken ∉ taken.
Proof.
  unfold util.slugify_uniquely. case_bool_decide as Hin; [|done].
  destruct (suffix_loop_enough_fuel (slugify s) taken 1 (S (length taken)))
    as [new_slug Hloop]; [lia|].
  rewrite Hloop. by apply suffix_loop_sound in Hloop as [? _].
Qed.

Lemma slugify_uniquely_derived s taken :
  util.slugify_uniquely slugify s taken = slugify s
  ∨ ∃ j : nat, util.slugify_uniquely slugify s taken = slugify s +:+ pretty j.
Proof.
  unfold util.slugify_uniquely. case_bool_decide as Hin; [|by left].
  destruct (util.suffix_loop _ _ _ _) as [new_slug|] eqn:Hloop; [|by left].
  right. apply suffix_loop_sound in Hloop as [_ [j ->]]. eauto.
Qed.
End slug_loop.

(** ** Tables *)

Section tables.
Context {A : Type}.
Implicit Types table : gmap Z A.

Lemma fresh_pk_above table k row :
  table !! k = Some row → k < orm.fresh_pk table.
Proof.
  intros Hk%elem_of_map_to_list. unfold orm.fresh_pk.
  apply (list_elem_of_fmap_2 fst) in Hk. cbn [fst] in Hk.
  revert Hk. generalize ((map_to_list table).*1). intros keys.
  induction keys as [|k' keys IH]; [by intros ?%elem_of_nil|].
  intros [->|Hin]%elem_of_cons; cbn [foldr]; [lia|].
  specialize (IH Hin). lia.
Qed.

Lemma fresh_pk_unused table : table !! orm.fresh_pk table = None.
Proof.
  destruct (table !! orm.fresh_pk table) as [row|] eqn:Hk; [|done].
  apply fresh_pk_above in Hk. lia.
Qed.

Lemma values_list_elem {B} (field : A → B) table k row :
  table !! k = Some row → field row ∈ orm.values_list field table.
Proof.
  intros Hk%elem_of_map_to_list. unfold orm.values_list.
  apply list_elem_of_fmap_2.
  by apply (list_elem_of_fmap_2 snd) in Hk.
Qed.

Lemma exclude_id_lookup pk table k row :
  orm.exclude_id pk table !! k = Some row ↔ table !! k = Some row ∧ k ≠ pk.
Proof. unfold orm.exclude_id. by rewrite map_lookup_filter_Some. Qed.

Lemma unique_violated_true {B} `{EqDecision B} (field : A → B) v pk table :
  orm.unique_violated field v pk table = true
  ↔ ∃ k row, table !! k = Some row ∧ k ≠ pk ∧ field row = v.
Proof. unfold orm.unique_violated. by rewrite bool_decide_eq_true. Qed.

Lemma unique_violated_false {B} `{EqDecision B} (field : A → B) v pk table :
  orm.unique_violated field v pk table = false
  ↔ ∀ k row, table !! k = Some row → k ≠ pk → field row ≠ v.
Proof.
  rewrite <-not_true_iff_false, unique_violated_true. split.
  - intros Hno k row Hk Hne Hv. apply Hno. eauto.
  - intros Hall (k & row & Hk & Hne & Hv). by eapply Hall.
Qed.
End tables.

(** ** C5: the slug of a relationship type *)

Section relationship_type.
Import RelationshipType.
Variable slugify : string → string.

(** The rows [save()] hands to [slugify_uniquely]. *)
Local Abbreviation queryset_of self objects :=
  (match saved_pk (id self) with
   | Some pk => orm.exclude_id pk objects
   | None => objects
   end).

Local Abbreviation slugged self objects :=
  (set_slug (util.slugify_uniquely slugify (name self)
               (orm.values_list slug (queryset_of self objects))) self).

Lemma save_unfold self objects :
  save slugify (self, objects)
  = let pk := orm.pk_for_save (id self) objects in
    if orm.unique_violated name (name self) pk objects
       || orm.unique_violated slug (slug (slugged self objects)) pk objects
    then (Raise IntegrityError, (slugged self objects, objects))
    else (Return tt, (set_id (Some pk) (slugged self objects),
                      <[pk := set_id (Some pk) (slugged self objects)]> objects)).
Proof.
  unfold save, super_save. run. cbn [id name set_slug].
  by destruct (_ || _).
Qed.

Lemma saved_pk_Some pk k : saved_pk pk = Some k → pk = Some k.
Proof. unfold saved_pk. by destruct (truthy pk). Qed.

Lemma slugged_differs_from_others self objects k row :
  objects !! k = Some row → id self ≠ Some k →
  slug row ≠ slug (slugged self objects).
Proof.
  intros Hk Hne Heq. cbn [slug set_slug] in Heq.
  eapply (slugify_uniquely_fresh slugify). rewrite <-Heq.
  apply (values_list_elem slug _ k).
  destruct (saved_pk (id self)) as [pk|] eqn:Hpk; [|done].
  apply saved_pk_Some in Hpk. apply exclude_id_lookup. split; [done|].
  congruence.
Qed.

Lemma slug_constraint_holds self objects :
  orm.unique_violated slug (slug (slugged self objects))
    (orm.pk_for_save (id self) objects) objects = false.
Proof.
  apply unique_violated_false. intros k row Hk Hne.
  apply (slugged_differs_from_others self objects k); [done|].
  intros Hid. rewrite Hid in Hne. done.
Qed.

Lemma save_keeps_slugs_distinct self objects :
  slugs_distinct objects → slugs_distinct (save slugify (self, objects)).2.2.
Proof.
  intros Hdistinct. rewrite save_unfold. cbn zeta.
  rewrite slug_constraint_holds, orb_false_r.
  destruct (orm.unique_violated name _ _ _); [done|]. cbn [snd].
  set (pk := orm.pk_for_save (id self) objects).
  assert (∀ k row, objects !! k = Some row → k ≠ pk →
            slug row ≠ slug (slugged self objects)) as Hothers.
  { apply unique_violated_false, slug_constraint_holds. }
  intros k1 k2 r1 r2 H1 H2 Heq.
  destruct (decide (k1 = k2)) as [|Hne]; [done|]. exfalso.
  destruct (decide (k1 = pk)) as [->|Hne1].
  - rewrite lookup_insert_eq in H1. rewrite lookup_insert_ne in H2 by done.
    injection H1 as <-. by eapply Hothers.
  - rewrite lookup_insert_ne in H1 by done.
    destruct (decide (k2 = pk)) as [->|Hne2].
    + rewrite lookup_insert_eq in H2. injection H2 as <-. by eapply Hothers.
    + rewrite lookup_insert_ne in H2 by done. eauto.
Qed.

Lemma save_each_keeps_slugs_distinct instances objects :
  slugs_distinct objects → slugs_distinct (save_each slugify instances objects).
Proof.
  revert objects. induction instances as [|self rest IH]; intros objects H; [done|].
  cbn [save_each]. by apply IH, save_keeps_slugs_distinct.
Qed.

(** C5.  Whatever rows exist, [save()] leaves in [self.slug] a slug that
    is the slugified name, possibly followed by a counter, and that no
    other row has, also when another row has the same name.  The slug
    never makes the write fail: the write is refused only when another row
    has the same name, and is stored under the instance's key otherwise.
    So a table without two equal slugs stays so under any sequence of
    saves, and every table built by saves alone is such a table. *)
Theorem save_assigns_unique_slug :
  (∀ self objects,
     let '(result, (self', objects')) := save slugify (self, objects) in
     (∀ k row, objects !! k = Some row → id self ≠ Some k →
        slug row ≠ slug self')
     ∧ (slug self' = slugify (name self)
        ∨ ∃ j : nat, slug self' = slugify (name self) +:+ pretty j)
     ∧ (result = Return tt
        ↔ ¬ ∃ k row, objects !! k = Some row
                     ∧ k ≠ orm.pk_for_save (id self) objects
                     ∧ name row = name self)
     ∧ (result = Return tt →
        ∃ pk, id self' = Some pk ∧ objects' = <[pk := self']> objects)
     ∧ (result ≠ Return tt → objects' = objects)
     ∧ (slugs_distinct objects → slugs_distinct objects'))
  ∧ (∀ instances objects,
       slugs_distinct objects →
       slugs_distinct (save_each slugify instances objects))
  ∧ (∀ instances, slugs_distinct (save_each slugify instances ∅)).
Proof.
  split; [|split].
  - intros self objects.
    pose proof (save_keeps_slugs_distinct self objects) as Hkeep.
    rewrite save_unfold in *. cbn zeta in *.
    rewrite slug_constraint_holds, orb_false_r in *.
    destruct (orm.unique_violated name _ _ _) eqn:Hname.
    + split; [intros k row ??; by apply (slugged_differs_from_others _ _ k)|].
      split; [apply slugify_uniquely_derived|].
      apply unique_violated_true in Hname.
      repeat split; done.
    + split.
      { intros k row Hk Hne. cbn [slug set_id].
        by apply (slugged_differs_from_others _ _ k). }
      split; [apply slugify_uniquely_derived|].
      rewrite unique_violated_false in Hname.
      repeat split; try done.
      * intros _ (k & row & Hk & Hne & Heq). by eapply Hname.
      * intros _. eexists. split; reflexivity.
  - apply save_each_keeps_slugs_distinct.
  - intros instances. apply save_each_keeps_slugs_distinct.
    intros k1 k2 r1 r2 H1. by rewrite lookup_empty in H1.
Qed.
End relationship_type.

(** ** C2, C3, C4: activation *)

Section activation.
Import LoginRegistration.
Variables slugify normalize_email make_password : string → string.

Local Abbreviation activate := (activate slugify normalize_email make_password).
Local Abbreviation create_user := (create_user normalize_email make_password).

(** The key and the name of the account to be created. *)
Local Abbreviation new_pk db := (orm.fresh_pk (auth_user db)).
Local Abbreviation new_username c db :=
  (util.slugify_uniquely slugify (Contact.get_full_name c)
     (orm.values_list User.username (auth_user db))).

(** The account, the contact and the registration as [activate] leaves
    them. *)
Local Abbreviation provisioned c db password :=
  (User.mk (Some (new_pk db)) (new_username c db)
     (Contact.first_name c) (Contact.last_name c)
     (normalize_email (Contact.email c)) (make_password password) true).
Local Abbreviation linked c db :=
  (Contact.mk (Some (orm.pk_for_save (Contact.id c) (crm_contact db)))
     (Some (new_pk db)) (Contact.first_name c) (Contact.last_name c)
     (Contact.email c)).
Local Abbreviation marked self c db :=
  (mk (Some (orm.pk_for_save (id self) (crm_loginregistration db)))
     (contact_id self) (Some (linked c db)) (date self)
     (activation_key self) true).

Lemma user_links_resolve_lookup db k row u :
  user_links_resolve db → crm_contact db !! k = Some row →
  Contact.user row = Some u → is_Some (auth_user db !! u).
Proof.
  intros Hlinks Hk Hu. specialize (Hlinks k row Hk). cbv beta in Hlinks.
  by rewrite Hu in Hlinks.
Qed.

Lemma contact_run self db c :
  the_contact self db = Some c →
  contact (self, db) = (Return c, (set_contact_cache (Some c) self, db)).
Proof.
  unfold the_contact, contact. run. destruct self as [? ? [c'|] ? ? ?]; cbn.
  - by intros [= ->].
  - by intros ->.
Qed.

Lemma contact_cached self db c :
  contact_cache self = Some c → contact (self, db) = (Return c, (self, db)).
Proof. intros Hc. unfold contact. run. by rewrite Hc. Qed.

Lemma create_user_run username email password db :
  username ∉ orm.values_list User.username (auth_user db) →
  create_user username email password db
  = (Return (User.mk (Some (new_pk db)) username "" ""
               (normalize_email email) (make_password password) true),
     set_auth_user
       (<[new_pk db :=
            User.mk (Some (new_pk db)) username "" ""
              (normalize_email email) (make_password password) true]>
          (auth_user db)) db).
Proof.
  intros Hfresh. unfold LoginRegistration.create_user, User_save. run.
  cbn [User.id User.username orm.pk_for_save].
  replace (orm.unique_violated _ _ _ _) with false; [done|].
  symmetry. apply unique_violated_false. intros k row Hk _ Heq.
  apply Hfresh. rewrite <-Heq. by apply (values_list_elem _ _ k).
Qed.

Lemma User_save_run user k db :
  User.id user = Some k →
  (∀ k' row, auth_user db !! k' = Some row → k' ≠ k →
     User.username row ≠ User.username user) →
  User_save user db
  = (Return user, set_auth_user (<[k := user]> (auth_user db)) db).
Proof.
  intros Hid Hunique. unfold User_save. run. rewrite Hid.
  cbn [orm.pk_for_save].
  replace (orm.unique_violated _ _ _ _) with false
    by (symmetry; by apply unique_violated_false).
  destruct user; cbn in *. by subst.
Qed.

Lemma Contact_save_run c db :
  (∀ k row, crm_contact db !! k = Some row → Contact.user row ≠ Contact.user c
            ∨ Contact.user c = None) →
  Contact_save c db
  = (Return (Contact.set_id (Some (orm.pk_for_save (Contact.id c) (crm_contact db))) c),
     set_crm_contact
       (<[orm.pk_for_save (Contact.id c) (crm_contact db) :=
            Contact.set_id
              (Some (orm.pk_for_save (Contact.id c) (crm_contact db))) c]>
          (crm_contact db)) db).
Proof.
  intros Hunique. unfold Contact_save. run.
  destruct (Contact.user c) as [u|] eqn:Hu; [|done].
  replace (orm.unique_violated _ _ _ _) with false; [done|].
  symmetry. apply unique_violated_false. intros k row Hk _ Heq.
  destruct (Hunique k row Hk) as [Hne|]; congruence.
Qed.

Lemma activate_run self db c password :
  the_contact self db = Some c → user_links_resolve db →
  activate password (self, db)
  = (Return (provisioned c db password),
     (marked self c db,
      mk_tables
        (<[new_pk db := provisioned c db password]> (auth_user db))
        (<[orm.pk_for_save (Contact.id c) (crm_contact db) := linked c db]>
           (crm_contact db))
        (<[orm.pk_for_save (id self) (crm_loginregistration db) :=
             set_contact_cache None (marked self c db)]>
           (crm_loginregistration db)))).
Proof.
  intros Hc Hlinks. unfold LoginRegistration.activate. run.
  rewrite (contact_run _ _ _ Hc).
  rewrite (contact_cached _ _ c) by done. cbv beta iota.
  unfold on_db at 1. cbv beta iota.
  rewrite create_user_run by apply slugify_uniquely_fresh. cbv beta iota.
  do 2 (rewrite (contact_cached _ _ c) by done; cbv beta iota).
  unfold on_db at 1. cbv beta iota.
  rewrite (User_save_run _ (new_pk db)); cycle 1.
  { done. }
  { cbn [auth_user set_auth_user User.username User.set_is_active
         User.set_last_name User.set_first_name].
    intros k' row Hk' Hne Heq. rewrite lookup_insert_ne in Hk' by done.
    eapply (slugify_uniquely_fresh slugify). rewrite <-Heq.
    by apply (values_list_elem _ _ k'). }
  cbv beta iota.
  rewrite (contact_cached _ _ c) by done. cbv beta iota.
  unfold set_contact at 1. run. cbv beta iota.
  cbn [User.id User.set_is_active User.set_last_name User.set_first_name
       User.username User.first_name User.last_name User.email User.password
       User.is_active set_contact_cache id contact_id date activation_key
       activated auth_user crm_contact crm_loginregistration set_auth_user].
  erewrite contact_cached by reflexivity. cbv beta iota.
  unfold on_db at 1. cbv beta iota.
  rewrite Contact_save_run; cycle 1.
  { intros k row Hk. left. cbn [Contact.user Contact.set_user crm_contact].
    intros Hu.
    destruct (user_links_resolve_lookup db k row (new_pk db) Hlinks Hk Hu)
      as [u Hlookup].
    by rewrite fresh_pk_unused in Hlookup. }
  cbv beta iota. unfold set_contact at 1. run. cbv beta iota.
  unfold self_save at 1. run. cbv beta iota.
  erewrite contact_cached by reflexivity. cbv beta iota.
  cbn [Contact.id Contact.user Contact.first_name Contact.last_name
       Contact.email Contact.set_id Contact.set_user
       set_contact_cache set_activated set_id id contact_id date
       activation_key activated contact_cache
       auth_user crm_contact crm_loginregistration set_auth_user
       set_crm_contact set_crm_loginregistration].
  by rewrite insert_insert_eq.
Qed.
(** What a successful activation has done, in the terms of C2. *)
Lemma activate_effects self db c password :
  the_contact self db = Some c → user_links_resolve db →
  ∃ user self' db' uid,
    activate password (self, db) = (Return user, (self', db'))
    ∧ activated self' = true
    ∧ (∃ rid row, id self' = Some rid
                  ∧ crm_loginregistration db' !! rid = Some row
                  ∧ activated row = true)
    ∧ User.id user = Some uid
    ∧ auth_user db !! uid = None
    ∧ auth_user db' !! uid = Some user
    ∧ User.first_name user = Contact.first_name c
    ∧ User.last_name user = Contact.last_name c
    ∧ (∃ c' cid, contact_cache self' = Some c'
                 ∧ Contact.user c' = Some uid
                 ∧ Contact.id c' = Some cid
                 ∧ crm_contact db' !! cid = Some c').
Proof.
  intros Hc Hlinks. eexists _, _, _, (new_pk db).
  split; [by apply activate_run|].
  cbn [activated id auth_user crm_contact crm_loginregistration
       contact_cache User.id User.first_name User.last_name].
  repeat split.
  - eexists _, _. split; [done|]. by rewrite lookup_insert_eq.
  - apply fresh_pk_unused.
  - by rewrite lookup_insert_eq.
  - eexists _, _. split; [done|]. cbn [Contact.user Contact.id].
    split; [done|]. split; [done|]. by rewrite lookup_insert_eq.
Qed.

(** C2.  For a registration whose contact exists, in a database where
    every contact's user link resolves, one call of [activate(password)]
    returns an account and leaves: the registration flagged activated, in
    memory and in its row; the returned account stored under a key that
    was not in use before, with the contact's first and last name; and
    the contact, in memory and in its row, linked to that account. *)
Theorem activate_provisions_account self db c password :
  the_contact self db = Some c → user_links_resolve db →
  ∃ user self' db' uid,
    activate password (self, db) = (Return user, (self', db'))
    ∧ activated self' = true
    ∧ (∃ rid row, id self' = Some rid
                  ∧ crm_loginregistration db' !! rid = Some row
                  ∧ activated row = true)
    ∧ User.id user = Some uid
    ∧ auth_user db !! uid = None
    ∧ auth_user db' !! uid = Some user
    ∧ User.first_name user = Contact.first_name c
    ∧ User.last_name user = Contact.last_name c
    ∧ (∃ c' cid, contact_cache self' = Some c'
                 ∧ Contact.user c' = Some uid
                 ∧ Contact.id c' = Some cid
                 ∧ crm_contact db' !! cid = Some c').
Proof. apply activate_effects. Qed.

(** C3.  [activate] consults neither the clock nor the settings: on a
    registration that [has_expired()] reports as expired it returns an
    account all the same, stores it under a new key and flags the
    registration activated. *)
Theorem activate_ignores_expiry conf now self db c password :
  has_expired conf now self = Return true →
  the_contact self db = Some c → user_links_resolve db →
  ∃ user self' db' uid,
    activate password (self, db) = (Return user, (self', db'))
    ∧ activated self' = true
    ∧ User.id user = Some uid
    ∧ auth_user db !! uid = None
    ∧ auth_user db' !! uid = Some user.
Proof.
  intros _ Hc Hlinks.
  destruct (activate_effects self db c password Hc Hlinks)
    as (user & self' & db' & uid & Hrun & Hflag & _ & Hid & Hnew & Hstored & _).
  by exists user, self', db', uid.
Qed.

Lemma activate_keeps_well_formed self db c password :
  the_contact self db = Some c → user_links_resolve db →
  let st := (activate password (self, db)).2 in
  (∃ c', the_contact st.1 st.2 = Some c') ∧ user_links_resolve st.2.
Proof.
  intros Hc Hlinks. rewrite (activate_run _ _ _ _ Hc Hlinks). cbn [fst snd].
  split; [by eexists|].
  intros k row. cbn [crm_contact auth_user].
  destruct (decide (k = orm.pk_for_save (Contact.id c) (crm_contact db)))
    as [->|Hne].
  - rewrite lookup_insert_eq. intros [= <-]. cbn [Contact.user].
    rewrite lookup_insert_eq. by eexists.
  - rewrite lookup_insert_ne by done. intros Hk.
    destruct (Contact.user row) as [u|] eqn:Hu; [|done].
    destruct (decide (u = new_pk db)) as [->|Hu'].
    + rewrite lookup_insert_eq. by eexists.
    + rewrite lookup_insert_ne by done.
      by eapply user_links_resolve_lookup.
Qed.

Lemma perform_keeps_well_formed ops self db c :
  the_contact self db = Some c → user_links_resolve db →
  let st := foldl (perform slugify normalize_email make_password) (self, db) ops in
  (∃ c', the_contact st.1 st.2 = Some c') ∧ user_links_resolve st.2.
Proof.
  revert self db c. induction ops as [|op ops IH]; intros self db c Hc Hlinks.
  { cbn. split; [by exists c | done]. }
  destruct op as [password|conf now]; cbn [foldl perform].
  - destruct (activate_keeps_well_formed self db c password Hc Hlinks)
      as [[c' Hc'] Hlinks'].
    destruct (activate password (self, db)).2 as [self1 db1].
    by apply (IH self1 db1 c').
  - by apply (IH self db c).
Qed.

Lemma perform_flag_and_accounts ops self db c :
  the_contact self db = Some c → user_links_resolve db →
  let st := foldl (perform slugify normalize_email make_password) (self, db) ops in
  (activated self = true → activated st.1 = true)
  ∧ ((0 < activations ops)%nat → activated st.1 = true)
  ∧ size (auth_user st.2) = (size (auth_user db) + activations ops)%nat.
Proof.
  revert self db c. induction ops as [|op ops IH]; intros self db c Hc Hlinks.
  { cbn. repeat split; [done | lia | lia]. }
  destruct op as [password|conf now]; cbn [foldl perform activations].
  - destruct (activate_keeps_well_formed self db c password Hc Hlinks)
      as [[c' Hc'] Hlinks'].
    destruct (activate password (self, db)).2 as [self1 db1] eqn:Hst.
    specialize (IH self1 db1 c' Hc' Hlinks') as (Hkeep & _ & Hsize).
    assert (activated self1 = true ∧ size (auth_user db1) = S (size (auth_user db)))
      as [Hflag Hone].
    { rewrite (activate_run _ _ _ _ Hc Hlinks) in Hst. injection Hst as <- <-.
      split; [done|]. cbn [auth_user].
      apply map_size_insert_None, fresh_pk_unused. }
    cbn zeta in *. repeat split; [by auto | by auto | lia].
  - apply (IH self db c Hc Hlinks).
Qed.

(** C4 (as amended).  Over any sequence of [activate] and [has_expired]
    calls on a registration, [activated] is never reset: if it was true it
    stays true, and it is true after any sequence containing an
    [activate].  [activate] itself checks neither [activated] nor the
    expiry: every call in the sequence provisions one more account, and
    after the sequence a further call still returns an account stored
    under a key not in use before.  That a registration is activated once
    only is left to the caller. *)
Theorem activated_is_never_reset ops self db c :
  the_contact self db = Some c → user_links_resolve db →
  let st := foldl (perform slugify normalize_email make_password) (self, db) ops in
  (activated self = true → activated st.1 = true)
  ∧ ((0 < activations ops)%nat → activated st.1 = true)
  ∧ size (auth_user st.2) = (size (auth_user db) + activations ops)%nat
  ∧ (∀ password, ∃ user uid,
       (activate password st).1 = Return user
       ∧ User.id user = Some uid
       ∧ auth_user st.2 !! uid = None
       ∧ auth_user (activate password st).2.2 !! uid = Some user).
Proof.
  intros Hc Hlinks st.
  destruct (perform_flag_and_accounts ops self db c Hc Hlinks)
    as (Hkeep & Hset & Hcount).
  destruct (perform_keeps_well_formed ops self db c Hc Hlinks)
    as [[c' Hc'] Hlinks'].
  fold st in Hkeep, Hset, Hcount, Hc', Hlinks'.
  repeat split; [done | done | done |].
  intros password. destruct st as [self1 db1].
  destruct (activate_effects self1 db1 c' password Hc' Hlinks')
    as (user & self' & db' & uid & Hrun & _ & _ & Hid & Hnew & Hstored & _).
  exists user, uid. by rewrite Hrun.
Qed.
End activation.

Lemma activate_provisions_account_witness :
  ∃ user,
    (LoginRegistration.activate hyphenate id id "s3cret"
       (jane_registration, jane_db)).1 = Return user
    ∧ User.first_name user = "Jane" ∧ User.last_name user = "Doe".
Proof.
  destruct (activate_provisions_account hyphenate id id
              jane_registration jane_db jane "s3cret")
    as (user & self' & db' & uid & Hrun & _ & _ & _ & _ & _ & Hfirst & Hlast & _).
  - vm_compute. reflexivity.
  - apply (bool_decide_unpack _). vm_compute. exact I.
  - exists user. rewrite Hrun. repeat split; assumption.
Defined.

Lemma activate_ignores_expiry_witness :
  ∃ user,
    (LoginRegistration.activate hyphenate id id "s3cret"
       (jane_registration, jane_db)).1 = Return user.
Proof.
  destruct (activate_ignores_expiry hyphenate id id settings.unset
              (datetime.days_after (733601 * datetime.us_per_day) 16)
              jane_registration jane_db jane "s3cret")
    as (user & self' & db' & uid & Hrun & _).
  - vm_compute. reflexivity.
  - vm_compute. reflexivity.
  - apply (bool_decide_unpack _). vm_compute. exact I.
  - exists user. by rewrite Hrun.
Defined.

Lemma activated_is_never_reset_witness :
  size
    (LoginRegistration.auth_user
       (foldl (LoginRegistration.perform hyphenate id id)
          (jane_registration, jane_db)
          [LoginRegistration.Activate "s3cret";
           LoginRegistration.HasExpired settings.unset 0;
           LoginRegistration.Activate "again"]).2)
  = 2%nat.
Proof.
  apply (activated_is_never_reset hyphenate id id
           [LoginRegistration.Activate "s3cret";
            LoginRegistration.HasExpired settings.unset 0;
            LoginRegistration.Activate "again"]
           jane_registration jane_db jane).
  - vm_compute. reflexivity.
  - apply (bool_decide_unpack _). vm_compute. exact I.
Defined.

(** C4 as stated fails: [activate] on Jane's registration, already
    activated, provisions a second account. *)
Lemma second_activation_provisions_again :
  ¬ activation_is_final hyphenate id id jane_activated.1 jane_activated.2.
Proof.
  intros Hfinal.
  assert (LoginRegistration.activated jane_activated.1 = true) as Hflag
    by (vm_compute; reflexivity).
  specialize (Hfinal Hflag "again").
  apply (f_equal (λ users : gmap Z User.t, User.username <$> users !! 2)) in Hfinal.
  vm_compute in Hfinal. discriminate.
Qed.

(** ** C6: duplicate e-mail addresses at signup *)

(** C6.  For a new person (an instance without a true [id]),
    [clean_email] raises a validation error when some existing user has
    the submitted address, and returns the submitted address unchanged
    otherwise. *)
Theorem clean_email_rejects_duplicate db self :
  truthy (User.id (forms.PersonForm.instance self)) = false →
  ((∃ k user, forms.auth_user db !! k = Some user
              ∧ User.email user = forms.PersonForm.cleaned_data_email self) →
   forms.PersonForm.clean_email db self
   = Raise (ValidationError "A user with that e-mail address already exists."))
  ∧ (¬ (∃ k user, forms.auth_user db !! k = Some user
                  ∧ User.email user = forms.PersonForm.cleaned_data_email self) →
     forms.PersonForm.clean_email db self
     = Return (forms.PersonForm.cleaned_data_email self)).
Proof.
  intros Hnew. unfold forms.PersonForm.clean_email. rewrite Hnew. cbn [negb andb].
  split.
  - intros (k & user & Hk & Hemail). rewrite bool_decide_eq_true_2; [done|].
    assert (user ∈ filter
              (λ u, User.email u = forms.PersonForm.cleaned_data_email self)
              (map_to_list (forms.auth_user db)).*2) as Hin.
    { apply list_elem_of_filter. split; [done|].
      apply elem_of_map_to_list in Hk.
      by apply (list_elem_of_fmap_2 snd) in Hk. }
    destruct (filter _ _); [by apply elem_of_nil in Hin | cbn; lia].
  - intros Hnone. rewrite bool_decide_eq_false_2; [done|].
    destruct (filter _ _) as [|user rest] eqn:Hfilter; [cbn; lia|].
    exfalso. apply Hnone.
    assert (user ∈ filter
              (λ u, User.email u = forms.PersonForm.cleaned_data_email self)
              (map_to_list (forms.auth_user db)).*2) as Hin
      by (rewrite Hfilter; left).
    apply list_elem_of_filter in Hin as [Hemail Hin].
    apply list_elem_of_fmap in Hin as ([k user'] & -> & Hin).
    apply elem_of_map_to_list in Hin. by exists k, user'.
Qed.

Lemma clean_email_rejects_duplicate_witness :
  forms.PersonForm.clean_email office_db signup_form
  = Raise (ValidationError "A user with that e-mail address already exists.").
Proof.
  apply (clean_email_rejects_duplicate office_db signup_form).
  - reflexivity.
  - exists 7, ann. split; reflexivity.
Defined.

(** ** C7, C9: the recipients of an e-mail form *)

Section joins.
Implicit Types pairs : gset (Z * Z).

Lemma joined_elem pairs k v : v ∈ forms.joined pairs k ↔ (k, v) ∈ pairs.
Proof.
  unfold forms.joined. rewrite list_elem_of_fmap. split.
  - intros ([k' v'] & -> & [Hk Hin]%list_elem_of_filter). cbn in *. subst.
    by apply elem_of_elements in Hin.
  - intros Hin. exists (k, v). split; [done|].
    apply list_elem_of_filter. split; [done|]. by apply elem_of_elements.
Qed.

Lemma joined_back_elem pairs k v : k ∈ forms.joined_back pairs v ↔ (k, v) ∈ pairs.
Proof.
  unfold forms.joined_back. rewrite list_elem_of_fmap. split.
  - intros ([k' v'] & -> & [Hv Hin]%list_elem_of_filter). cbn in *. subst.
    by apply elem_of_elements in Hin.
  - intros Hin. exists (k, v). split; [done|].
    apply list_elem_of_filter. split; [done|]. by apply elem_of_elements.
Qed.

Lemma joined_back_NoDup pairs v : NoDup (forms.joined_back pairs v).
Proof.
  unfold forms.joined_back. apply NoDup_fmap_2_strong.
  - intros [k1 v1] [k2 v2] [Hv1 _]%list_elem_of_filter [Hv2 _]%list_elem_of_filter.
    cbn in *. congruence.
  - apply NoDup_filter, NoDup_elements.
Qed.
End joins.

Section email_form.
Import forms forms.EmailForm.
Variable get_full_name : User.t → string.

Local Abbreviation __init__ := (__init__ get_full_name).
Local Abbreviation choice := (choice get_full_name).

(** The members named by a search. *)
Local Abbreviation members db search :=
  (match search with
   | Q_projects project => λ uid, (project, uid) ∈ project_contacts db
   | Q_businesses business => λ uid, (business, uid) ∈ business_contacts db
   end).

Lemma User_filter_elem db search uid user :
  (uid, user) ∈ User_filter db search
  ↔ auth_user db !! uid = Some user ∧ members db search uid.
Proof.
  unfold User_filter. rewrite list_elem_of_bind. split.
  - intros ([uid' user'] & Hin & Hrow%elem_of_map_to_list).
    destruct search as [project|business];
      apply list_elem_of_bind in Hin as (k & Hin & Hk%joined_back_elem);
      case_bool_decide; subst;
      (apply list_elem_of_singleton in Hin || apply elem_of_nil in Hin);
      try done; by simplify_eq.
  - intros [Hrow Hmember]. exists (uid, user).
    split; [|by apply elem_of_map_to_list].
    destruct search as [project|business]; apply list_elem_of_bind.
    + exists project. split; [|by apply joined_back_elem].
      rewrite bool_decide_eq_true_2 by done. by apply list_elem_of_singleton.
    + exists business. split; [|by apply joined_back_elem].
      rewrite bool_decide_eq_true_2 by done. by apply list_elem_of_singleton.
Qed.

Lemma User_filter_NoDup db search : NoDup (User_filter db search).*1.
Proof.
  apply NoDup_fmap_2_strong.
  - intros [uid1 u1] [uid2 u2] [H1 _]%User_filter_elem [H2 _]%User_filter_elem.
    cbn. intros ->. congruence.
  - unfold User_filter. apply NoDup_bind.
    + intros [uid1 u1] [uid2 u2] y _ _ H1 H2.
      destruct search as [project|business];
        apply list_elem_of_bind in H1 as (k1 & H1 & _);
        apply list_elem_of_bind in H2 as (k2 & H2 & _);
        repeat case_bool_decide;
        repeat match goal with
               | H : _ ∈ [] |- _ => by apply elem_of_nil in H
               | H : _ ∈ [_] |- _ => apply list_elem_of_singleton in H
               end; congruence.
    + intros [uid u] _.
      destruct search as [project|business]; apply NoDup_bind;
        try apply joined_back_NoDup.
      * intros k1 k2 y _ _ H1 H2. repeat case_bool_decide; subst; try done;
          by apply elem_of_nil in H1 || by apply elem_of_nil in H2.
      * intros k _. case_bool_decide; [apply NoDup_singleton | apply NoDup_nil_2].
      * intros k1 k2 y _ _ H1 H2. repeat case_bool_decide; subst; try done;
          by apply elem_of_nil in H1 || by apply elem_of_nil in H2.
      * intros k _. case_bool_decide; [apply NoDup_singleton | apply NoDup_nil_2].
    + apply NoDup_map_to_list.
Qed.

Lemma append_choices users acc :
  to_choices (foldl (λ self user, mk (to_choices self ++ [choice user])) (mk acc) users)
  = acc ++ (choice <$> users).
Proof.
  revert acc. induction users as [|user users IH]; intros acc; cbn.
  - by rewrite app_nil_r.
  - rewrite IH. cbn. by rewrite <-app_assoc.
Qed.

Lemma init_with_project db business project :
  to_choices (__init__ db business (Some project))
  = choice <$> User_filter db (Q_projects project).
Proof. unfold EmailForm.__init__. by rewrite append_choices. Qed.

Lemma init_with_business db business :
  to_choices (__init__ db (Some business) None)
  = choice <$> User_filter db (Q_businesses business).
Proof. unfold EmailForm.__init__. by rewrite append_choices. Qed.

Lemma choices_of_search db search uid label :
  (uid, label) ∈ choice <$> User_filter db search
  ↔ ∃ user, auth_user db !! uid = Some user ∧ members db search uid
            ∧ label = get_full_name user +:+ " (" +:+ User.email user +:+ ")".
Proof.
  rewrite list_elem_of_fmap. split.
  - intros ([uid' user] & [= -> ->] & Hin). cbn [fst snd].
    apply User_filter_elem in Hin as [Hrow Hmember]. by exists user.
  - intros (user & Hrow & Hmember & ->). exists (uid, user).
    split; [done|]. by apply User_filter_elem.
Qed.

Lemma choice_keys rows : (choice <$> rows).*1 = rows.*1.
Proof. rewrite <-list_fmap_compose. by apply list_fmap_ext. Qed.

(** C7.  Given a project, the choices of [to] are one entry per user who
    is a contact of that project, keyed by the user's id and labelled with
    name and address, and nothing else; given a business and no project,
    the same holds with the contacts of that business.  No user is listed
    twice. *)
Theorem email_form_choices_are_members db :
  (∀ business project uid label,
     (uid, label) ∈ to_choices (__init__ db business (Some project))
     ↔ ∃ user, auth_user db !! uid = Some user
               ∧ (project, uid) ∈ project_contacts db
               ∧ label = get_full_name user +:+ " (" +:+ User.email user +:+ ")")
  ∧ (∀ business uid label,
       (uid, label) ∈ to_choices (__init__ db (Some business) None)
       ↔ ∃ user, auth_user db !! uid = Some user
                 ∧ (business, uid) ∈ business_contacts db
                 ∧ label = get_full_name user +:+ " (" +:+ User.email user +:+ ")")
  ∧ (∀ business project, NoDup (to_choices (__init__ db business project)).*1).
Proof.
  split; [|split].
  - intros business project uid label. rewrite init_with_project.
    apply (choices_of_search db (Q_projects project)).
  - intros business uid label. rewrite init_with_business.
    apply (choices_of_search db (Q_businesses business)).
  - intros [business|] [project|].
    + rewrite init_with_project, choice_keys. apply User_filter_NoDup.
    + rewrite init_with_business, choice_keys. apply User_filter_NoDup.
    + rewrite init_with_project, choice_keys. apply User_filter_NoDup.
    + cbn. apply NoDup_nil_2.
Qed.

(** C9.  Given both a project and a business, the form is the one built
    from the project alone: the business changes nothing, and the choices
    are the contacts of the project. *)
Theorem email_form_project_takes_precedence db business project :
  __init__ db (Some business) (Some project) = __init__ db None (Some project)
  ∧ (∀ uid, uid ∈ (to_choices (__init__ db (Some business) (Some project))).*1
            ↔ is_Some (auth_user db !! uid) ∧ (project, uid) ∈ project_contacts db).
Proof.
  split; [done|]. intros uid. rewrite init_with_project, choice_keys.
  rewrite list_elem_of_fmap. split.
  - intros ([uid' user] & -> & [Hrow Hmember]%User_filter_elem). by eauto.
  - intros [[user Hrow] Hmember]. exists (uid, user).
    split; [done|]. by apply User_filter_elem.
Qed.
End email_form.

(** ** C8: the projects of an interaction form *)

Section interaction_form.
Import forms forms.InteractionForm.

Lemma iexact_client name : iexact name "client" = true ↔ lower name = "client".
Proof. unfold iexact. by rewrite bool_decide_eq_true. Qed.

Lemma client_contacts_elem db pk user :
  user ∈ client_contacts db pk
  ↔ (pk, user) ∈ interaction_contacts db ∧ client_contact db user.
Proof.
  unfold client_contacts, client_contact. rewrite list_elem_of_bind. split.
  - intros (u & Hin & Hu%joined_elem).
    apply list_elem_of_bind in Hin as (business & Hin & Hb%joined_back_elem).
    apply list_elem_of_bind in Hin as (business_type & Hin & Ht%joined_elem).
    destruct (crm_businesstype db !! business_type) as [row|] eqn:Hrow;
      [|by apply elem_of_nil in Hin].
    destruct (iexact (BusinessType.name row) "client") eqn:Hname;
      [|by apply elem_of_nil in Hin].
    apply list_elem_of_singleton in Hin as ->. apply iexact_client in Hname.
    split; [done|]. by exists business, business_type, row.
  - intros (Hu & business & business_type & row & Hb & Ht & Hrow & Hname).
    exists user. split; [|by apply joined_elem].
    apply list_elem_of_bind. exists business. split; [|by apply joined_back_elem].
    apply list_elem_of_bind. exists business_type. split; [|by apply joined_elem].
    rewrite Hrow. apply iexact_client in Hname. rewrite Hname.
    by apply list_elem_of_singleton.
Qed.

Lemma projects_with_contact_in_elem db users project :
  project ∈ projects_with_contact_in db users
  ↔ is_Some (crm_project db !! project)
    ∧ ∃ user, (project, user) ∈ project_contacts db ∧ user ∈ users.
Proof.
  unfold projects_with_contact_in. rewrite elem_of_remove_dups, list_elem_of_bind.
  split.
  - intros ([p row] & Hin & Hrow%elem_of_map_to_list).
    apply list_elem_of_bind in Hin as (user & Hin & Hu%joined_elem).
    case_bool_decide; [|by apply elem_of_nil in Hin].
    apply list_elem_of_singleton in Hin as ->. split; [by eexists | by exists user].
  - intros [[row Hrow] (user & Hu & Hin)]. exists (project, row).
    split; [|by apply elem_of_map_to_list].
    apply list_elem_of_bind. exists user. split; [|by apply joined_elem].
    rewrite bool_decide_eq_true_2 by done. by apply list_elem_of_singleton.
Qed.

Lemma projects_of_person_elem db person project :
  project ∈ projects_of_person db person
  ↔ is_Some (crm_project db !! project)
    ∧ ∃ row, crm_profile db !! Profile.id person = Some row
             ∧ (project, Profile.user row) ∈ project_contacts db.
Proof.
  unfold projects_of_person. rewrite list_elem_of_bind. split.
  - intros ([p prow] & Hin & Hrow%elem_of_map_to_list).
    apply list_elem_of_bind in Hin as (user & Hin & Hu%joined_elem).
    apply list_elem_of_bind in Hin as ([profile row] & Hin & Hp%elem_of_map_to_list).
    case_bool_decide as Hmatch; [|by apply elem_of_nil in Hin].
    apply list_elem_of_singleton in Hin as ->. destruct Hmatch as [<- ->].
    split; [by eexists | by exists row].
  - intros [[prow Hrow] (row & Hp & Hu)]. exists (project, prow).
    split; [|by apply elem_of_map_to_list].
    apply list_elem_of_bind. exists (Profile.user row).
    split; [|by apply joined_elem].
    apply list_elem_of_bind. exists (Profile.id person, row).
    split; [|by apply elem_of_map_to_list].
    rewrite bool_decide_eq_true_2 by done. by apply list_elem_of_singleton.
Qed.

Lemma init_project_queryset db request_POST instance url person crm_user form :
  __init__ db request_POST instance url person crm_user = Return form →
  project_queryset form
  = match saved_pk (Interaction.id instance), person with
    | None, Some person => projects_of_person db person
    | Some pk, _ => projects_with_contact_in db (client_contacts db pk)
    | None, None => []
    end.
Proof.
  unfold __init__. destruct (if negb request_POST then _ else _); [|done].
  cbn [mbind outcome_bind]. by intros [= <-].
Qed.
(** The constructor raises only when it has to preselect the contacts of
    a new interaction and lacks the person or the CRM user. *)
Lemma init_returns db request_POST instance url person crm_user :
  request_POST = true ∨ is_Some (saved_pk (Interaction.id instance))
  ∨ (is_Some person ∧ is_Some crm_user) →
  ∃ form, __init__ db request_POST instance url person crm_user = Return form.
Proof.
  unfold __init__. intros [->|[[pk ->]|[[the_person ->] [the_user ->]]]].
  - by eexists.
  - destruct request_POST; by eexists.
  - destruct request_POST, (saved_pk _); by eexists.
Qed.

(** C8 (as amended).  When the form edits a saved interaction, the
    projects it offers are, each once, the projects that have among their
    contacts a contact of that interaction who belongs to a business with
    a business type named "client" in any case; each of them has a client
    contact.  When the form is for a new interaction and a person is
    given, it offers instead the projects that have that person's user
    among their contacts, whether a client or not; without a person it
    offers none. *)
Theorem interaction_form_projects
    db request_POST instance url person crm_user form :
  __init__ db request_POST instance url person crm_user = Return form →
  (∀ pk, saved_pk (Interaction.id instance) = Some pk →
     NoDup (project_queryset form)
     ∧ (∀ project,
          project ∈ project_queryset form
          ↔ is_Some (crm_project db !! project)
            ∧ ∃ user, (pk, user) ∈ interaction_contacts db
                      ∧ (project, user) ∈ project_contacts db
                      ∧ client_contact db user)
     ∧ (∀ project, project ∈ project_queryset form →
          has_client_contact db project))
  ∧ (∀ the_person,
       saved_pk (Interaction.id instance) = None → person = Some the_person →
       ∀ project,
         project ∈ project_queryset form
         ↔ is_Some (crm_project db !! project)
           ∧ ∃ row, crm_profile db !! Profile.id the_person = Some row
                    ∧ (project, Profile.user row) ∈ project_contacts db)
  ∧ (saved_pk (Interaction.id instance) = None → person = None →
     project_queryset form = []).
Proof.
  intros Hinit%init_project_queryset. rewrite Hinit. split; [|split].
  - intros pk ->.
    assert (∀ project,
              project ∈ projects_with_contact_in db (client_contacts db pk)
              ↔ is_Some (crm_project db !! project)
                ∧ ∃ user, (pk, user) ∈ interaction_contacts db
                          ∧ (project, user) ∈ project_contacts db
                          ∧ client_contact db user) as Hoffered.
    { intros project. rewrite projects_with_contact_in_elem.
      split; intros [Hrow (user & H)]; (split; [done|]); exists user.
      - destruct H as [Hu [Hi Hc]%client_contacts_elem]. done.
      - destruct H as (Hi & Hu & Hc). split; [done|].
        by apply client_contacts_elem. }
    split; [apply NoDup_remove_dups|]. split; [done|].
    intros project (_ & user & _ & Hu & Hc)%Hoffered. by exists user.
  - intros the_person -> -> project. apply projects_of_person_elem.
  - by intros -> ->.
Qed.
End interaction_form.

Lemma interaction_form_projects_witness :
  ∃ form,
    forms.InteractionForm.__init__ office_db false new_interaction "/contacts/"
      (Some (Profile.mk 3 7)) (Some 9) = Return form
    ∧ (1 ∈ forms.InteractionForm.project_queryset form
       ↔ is_Some (forms.crm_project office_db !! 1)
         ∧ ∃ row, forms.crm_profile office_db !! 3 = Some row
                  ∧ (1, Profile.user row) ∈ forms.project_contacts office_db).
Proof.
  destruct (forms.InteractionForm.__init__ office_db false new_interaction
              "/contacts/" (Some (Profile.mk 3 7)) (Some 9))
    as [form|e] eqn:Hinit; [|vm_compute in Hinit; discriminate].
  exists form. split; [reflexivity|].
  destruct (interaction_form_projects office_db false new_interaction
              "/contacts/" (Some (Profile.mk 3 7)) (Some 9) form Hinit)
    as (_ & Hnew & _).
  apply (Hnew (Profile.mk 3 7)); reflexivity.
Defined.

(** C8 as stated fails: for a new interaction of Ann the form offers
    project 1, of which she is a contact, although no business exists at
    all. *)
Lemma new_interaction_offers_any_project :
  ¬ offers_only_client_projects office_db false new_interaction "/contacts/"
      (Some (Profile.mk 3 7)) (Some 9).
Proof.
  intros Hclaim.
  edestruct Hclaim as (user & _ & business & business_type & row & Hb & _).
  - vm_compute. reflexivity.
  - cbn [forms.InteractionForm.project_queryset]. apply list_elem_of_singleton.
    reflexivity.
  - cbn [office_db forms.business_contacts] in Hb.
    by apply not_elem_of_empty in Hb.
Qed.

(** ** C10: the contacts of a saved interaction *)

Section interaction_save.
Import forms forms.InteractionForm.

Lemma submitted_contacts_elem (pk : Z) (users : list Z) (pairs : gset (Z * Z))
    (k user : Z) :
  (k, user) ∈ (list_to_set ((λ u, (pk, u)) <$> users) : gset (Z * Z))
                ∪ filter (λ p, p.1 ≠ pk) pairs
  ↔ (k = pk ∧ user ∈ users) ∨ (k ≠ pk ∧ (k, user) ∈ pairs).
Proof.
  rewrite elem_of_union, elem_of_list_to_set, list_elem_of_fmap, elem_of_filter.
  cbn [fst]. split.
  - intros [(u & [= -> ->] & Hin)|[Hne Hin]]; [by left | by right].
  - intros [[-> Hin]|[Hne Hin]]; [left; by exists user | by right].
Qed.

Lemma super_save_run self db data :
  cleaned_data self = Some data →
  let pk := orm.pk_for_save (Interaction.id (instance self)) (crm_interaction db) in
  let saved :=
    Interaction.mk (Some pk) (cleaned_date data) (cleaned_type data)
      (cleaned_completed data) (cleaned_project data) (cleaned_memo data) in
  super_save (self, db)
  = (Return saved,
     (set_instance saved self,
      set_interactions (<[pk := saved]> (crm_interaction db))
        (list_to_set ((λ user, (pk, user)) <$> cleaned_contacts data)
         ∪ filter (λ p, p.1 ≠ pk) (interaction_contacts db)) db)).
Proof. intros Hdata. unfold super_save. run. by rewrite Hdata. Qed.

(** C10.  Saving a form that has validated returns the interaction, stored
    under its key, and touches the contacts of no other interaction.  When
    the form was bound to a saved interaction, its contacts afterwards are
    the submitted ones and no others.  When the save creates the
    interaction, its contacts are the submitted ones together with the
    person's user and the CRM user, for each of the two that the form was
    given. *)
Theorem interaction_save_adds_users_on_create_only self db data :
  cleaned_data self = Some data →
  ∃ saved pk self' db',
    save (self, db) = (Return saved, (self', db'))
    ∧ Interaction.id saved = Some pk
    ∧ crm_interaction db' !! pk = Some saved
    ∧ (∀ k user, k ≠ pk →
         (k, user) ∈ interaction_contacts db' ↔ (k, user) ∈ interaction_contacts db)
    ∧ (truthy (Interaction.id (instance self)) = true →
       Interaction.id (instance self) = Some pk
       ∧ ∀ user, (pk, user) ∈ interaction_contacts db'
                 ↔ user ∈ cleaned_contacts data)
    ∧ (truthy (Interaction.id (instance self)) = false →
       ∀ user, (pk, user) ∈ interaction_contacts db'
               ↔ user ∈ cleaned_contacts data
                 ∨ (∃ the_person, person self = Some the_person
                                  ∧ user = Profile.user the_person)
                 ∨ crm_user self = Some user).
Proof.
  intros Hdata. unfold save. run.
  rewrite (super_save_run self db data Hdata). cbv beta iota zeta.
  set (pk := orm.pk_for_save (Interaction.id (instance self)) (crm_interaction db)).
  destruct (truthy (Interaction.id (instance self))) eqn:Htruthy; cbn [negb].
  - run. eexists _, pk, _, _. split; [done|]. split; [done|].
    cbn [crm_interaction interaction_contacts set_interactions].
    split; [by rewrite lookup_insert_eq|]. split; [|split; [|done]].
    + intros k user Hne. rewrite submitted_contacts_elem. intuition congruence.
    + intros _. split.
      { unfold pk. destruct (Interaction.id (instance self)); [done|].
        discriminate. }
      intros user. rewrite submitted_contacts_elem. intuition congruence.
  - destruct (person self) as [the_person|], (crm_user self) as [the_user|];
      unfold contacts_add; run;
      cbn [Interaction.id set_instance person crm_user];
      (eexists _, pk, _, _; split; [done|]; split; [done|]);
      cbn [crm_interaction interaction_contacts set_interactions];
      (split; [by rewrite lookup_insert_eq|]);
      (split; [|split; [done|intros _]]); intros;
      pose proof (submitted_contacts_elem pk (cleaned_contacts data)
                    (interaction_contacts db)) as Hsubmitted;
      set (submitted := _ ∪ filter _ _) in *;
      rewrite ?elem_of_union, ?elem_of_singleton, Hsubmitted;
      split; intros Hin; decompose [and or ex] Hin; simplify_eq; eauto 6.
Qed.
End interaction_save.

Lemma interaction_save_adds_users_on_create_only_witness :
  ∃ saved db',
    (forms.InteractionForm.save (submitted_form, office_db)).1 = Return saved
    ∧ (forms.InteractionForm.save (submitted_form, office_db)).2.2 = db'
    ∧ Interaction.id saved = Some 6
    ∧ (6, 9) ∈ forms.interaction_contacts db'.
Proof.
  destruct (interaction_save_adds_users_on_create_only submitted_form office_db
              (forms.InteractionForm.mk_cleaned 0 "email" true (Some 1) [7] "hello"))
    as (saved & pk & self' & db' & Hrun & Hid & _ & _ & _ & Hcreated).
  - reflexivity.
  - exists saved, db'. rewrite Hrun. split; [reflexivity|]. split; [reflexivity|].
    assert (pk = 6) as ->.
    { assert ((forms.InteractionForm.save (submitted_form, office_db)).1
              = Return (Interaction.mk (Some 6) 0 "email" true (Some 1) "hello"))
        as Hvalue by (vm_compute; reflexivity).
      rewrite Hrun in Hvalue. injection Hvalue as ->.
      by injection Hid as <-. }
    split; [done|]. apply Hcreated; [reflexivity|]. right. right. reflexivity.
Defined.

(** * Further properties of models.py *)

(** ** [has_expired] *)

(** X1.  Expiry is final: a registration that [has_expired()] reports as
    expired at one instant is reported as expired at every later one. *)
Theorem has_expired_is_monotone conf now later self :
  now ≤ later →
  LoginRegistration.has_expired conf now self = Return true →
  LoginRegistration.has_expired conf later self = Return true.
Proof.
  intros Hlater. unfold LoginRegistration.has_expired.
  destruct (datetime.timedelta _) as [delta|e]; [|done]. cbn [mbind outcome_bind].
  destruct (datetime.add _ _) as [deadline|e]; [|done].
  cbn [mbind outcome_bind mret outcome_ret].
  intros [= Hexpired%bool_decide_eq_true]. rewrite bool_decide_eq_true_2; [done|lia].
Qed.

Lemma has_expired_is_monotone_witness :
  LoginRegistration.has_expired settings.unset
    (datetime.days_after (733601 * datetime.us_per_day) 40) jane_registration
  = Return true.
Proof.
  apply (has_expired_is_monotone settings.unset
           (datetime.days_after (733601 * datetime.us_per_day) 15)).
  - vm_compute. discriminate.
  - vm_compute. reflexivity.
Defined.


(** ** [activate] *)

Section activation_more.
Import LoginRegistration.
Variables slugify normalize_email make_password : string → string.

Local Abbreviation activate := (activate slugify normalize_email make_password).

Lemma fresh_pk_after_insert {A} (table : gmap Z A) k x :
  k < orm.fresh_pk (<[k := x]> table).
Proof. eapply fresh_pk_above. apply lookup_insert_eq. Qed.

(** X3.  When the registration's contact cannot be found, [activate]
    raises [DoesNotExist] before anything is written: no account is
    created and the registration stays as it was. *)
Theorem activate_without_contact self db password :
  the_contact self db = None →
  activate password (self, db) = (Raise DoesNotExist, (self, db)).
Proof.
  unfold the_contact. intros Hnone.
  unfold LoginRegistration.activate, contact. run.
  destruct (contact_cache self); [done|]. by rewrite Hnone.
Qed.

(** X4.  A successful activation writes three rows and no others: every
    account that existed is still there unchanged next to exactly one new
    one, and apart from the row of the registration's contact and the row
    of the registration itself, contacts and registrations are as
    before. *)
Theorem activate_writes_three_rows self db c password :
  the_contact self db = Some c → user_links_resolve db →
  let db' := (activate password (self, db)).2.2 in
  (∀ k u, auth_user db !! k = Some u → auth_user db' !! k = Some u)
  ∧ size (auth_user db') = S (size (auth_user db))
  ∧ (∀ k, k ≠ orm.pk_for_save (Contact.id c) (crm_contact db) →
          crm_contact db' !! k = crm_contact db !! k)
  ∧ (∀ k, k ≠ orm.pk_for_save (id self) (crm_loginregistration db) →
          crm_loginregistration db' !! k = crm_loginregistration db !! k).
Proof.
  intros Hc Hlinks.
  rewrite (activate_run slugify normalize_email make_password _ _ _ _ Hc Hlinks).
  cbn [snd auth_user crm_contact crm_loginregistration]. repeat split.
  - intros k u Hk. rewrite lookup_insert_ne; [done|].
    intros <-. by rewrite fresh_pk_unused in Hk.
  - apply map_size_insert_None, fresh_pk_unused.
  - intros k Hne. by rewrite lookup_insert_ne.
  - intros k Hne. by rewrite lookup_insert_ne.
Qed.

(** X5.  Activation keeps the database consistent: if usernames are
    pairwise distinct, no two contacts are linked to the same account and
    every link points to an existing account, then the same holds after
    [activate] (the username being uniquified as modelled above). *)
Theorem activate_keeps_accounts_consistent self db c password :
  the_contact self db = Some c → user_links_resolve db →
  usernames_distinct db → links_distinct db →
  let db' := (activate password (self, db)).2.2 in
  usernames_distinct db' ∧ links_distinct db' ∧ user_links_resolve db'.
Proof.
  intros Hc Hlinks Hnames Hdistinct.
  pose proof (activate_keeps_well_formed slugify normalize_email make_password
                self db c password Hc Hlinks) as [_ Hresolve].
  rewrite (activate_run slugify normalize_email make_password _ _ _ _ Hc Hlinks)
    in *.
  cbn [fst snd] in *. split; [|split; [|done]].
  - intros k1 u1 Hk1 k2 u2 Hk2. cbn [auth_user] in *.
    assert (∀ k u, auth_user db !! k = Some u →
              User.username u
              ≠ util.slugify_uniquely slugify (Contact.get_full_name c)
                  (orm.values_list User.username (auth_user db))) as Hfresh.
    { intros k u Hk Heq. eapply (slugify_uniquely_fresh slugify).
      rewrite <-Heq. by apply (values_list_elem _ _ k). }
    revert Hk1 Hk2.
    destruct (decide (k1 = orm.fresh_pk (auth_user db))) as [->|Hne1],
             (decide (k2 = orm.fresh_pk (auth_user db))) as [->|Hne2];
      rewrite ?lookup_insert_eq, ?lookup_insert_ne by done; try done.
    + intros [= <-] Hk2 Heq. cbn [User.username] in Heq.
      by destruct (Hfresh k2 u2 Hk2).
    + intros Hk1 [= <-] Heq. cbn [User.username] in Heq.
      by destruct (Hfresh k1 u1 Hk1).
    + intros Hk1 Hk2. by apply (Hnames k1 u1 Hk1 k2 u2 Hk2).
  - intros k1 c1 Hk1 k2 c2 Hk2. cbn [crm_contact] in *.
    assert (∀ k row, crm_contact db !! k = Some row →
              Contact.user row ≠ Some (orm.fresh_pk (auth_user db))) as Hold.
    { intros k row Hk Hu.
      destruct (user_links_resolve_lookup db k row _ Hlinks Hk Hu) as [? Hin].
      by rewrite fresh_pk_unused in Hin. }
    revert Hk1 Hk2.
    set (cpk := orm.pk_for_save (Contact.id c) (crm_contact db)).
    destruct (decide (k1 = cpk)) as [->|Hne1], (decide (k2 = cpk)) as [->|Hne2];
      rewrite ?lookup_insert_eq, ?lookup_insert_ne by done; try done.
    + intros [= <-] Hk2 _. cbn [Contact.user]. intros Hu.
      by destruct (Hold k2 c2 Hk2).
    + intros Hk1 [= <-] _. cbn [Contact.user]. intros Hu.
      by destruct (Hold k1 c1 Hk1).
    + intros Hk1 Hk2. by apply (Hdistinct k1 c1 Hk1 k2 c2 Hk2).
Qed.

(** X6.  Activating a registration a second time leaves the first account
    behind: both calls return an account, under different keys; the first
    account is still stored and active, but no contact is linked to it
    any more, the registration's contact being linked to the second. *)
Theorem reactivation_orphans_first_account self db c password1 password2 :
  the_contact self db = Some c → user_links_resolve db →
  ∃ first second k1 k2 st1 st2,
    activate password1 (self, db) = (Return first, st1)
    ∧ activate password2 st1 = (Return second, st2)
    ∧ User.id first = Some k1 ∧ User.id second = Some k2 ∧ k1 ≠ k2
    ∧ auth_user st2.2 !! k1 = Some first
    ∧ User.is_active first = true
    ∧ (∀ k row, crm_contact st2.2 !! k = Some row → Contact.user row ≠ Some k1)
    ∧ (∃ c2, contact_cache st2.1 = Some c2 ∧ Contact.user c2 = Some k2).
Proof.
  intros Hc Hlinks.
  pose proof (activate_keeps_well_formed slugify normalize_email make_password
                self db c password1 Hc Hlinks) as [_ Hlinks1].
  rewrite (activate_run slugify normalize_email make_password _ _ _ _ Hc Hlinks)
    in Hlinks1.
  cbn [snd] in Hlinks1.
  eexists _, _, _, _, _, _.
  split; [by apply activate_run|].
  split; [by apply activate_run|].
  cbn [fst snd auth_user crm_contact contact_cache User.id User.is_active
       Contact.id Contact.user orm.pk_for_save].
  match goal with
  | |- context [orm.fresh_pk (<[?k := ?x]> ?m)] =>
      pose proof (fresh_pk_after_insert m k x) as Hlt
  end.
  split; [done|]. split; [done|]. split; [lia|].
  split; [rewrite lookup_insert_ne by lia; apply lookup_insert_eq|].
  split; [done|]. split; [|by eexists].
  intros k row.
  destruct (decide (k = orm.pk_for_save (Contact.id c) (crm_contact db)))
    as [->|Hne].
  - rewrite lookup_insert_eq. intros [= <-]. cbn [Contact.user].
    intros [= Heq]. lia.
  - rewrite !lookup_insert_ne by done. intros Hk Hu.
    destruct (user_links_resolve_lookup db k row _ Hlinks Hk Hu) as [? Hin].
    by rewrite fresh_pk_unused in Hin.
Qed.
End activation_more.

Lemma activate_without_contact_witness :
  LoginRegistration.activate hyphenate id id "s3cret" (stray_registration, jane_db)
  = (Raise DoesNotExist, (stray_registration, jane_db)).
Proof.
  apply (activate_without_contact hyphenate id id stray_registration jane_db).
  vm_compute. reflexivity.
Defined.

Lemma activate_writes_three_rows_witness :
  size (LoginRegistration.auth_user
          (LoginRegistration.activate hyphenate id id "again"
             (jane_activated.1, jane_activated.2)).2.2) = 2%nat.
Proof.
  apply (activate_writes_three_rows hyphenate id id
           jane_activated.1 jane_activated.2 jane_linked "again").
  - vm_compute. reflexivity.
  - apply (bool_decide_unpack _). vm_compute. exact I.
Defined.

Lemma activate_keeps_accounts_consistent_witness :
  usernames_distinct
    (LoginRegistration.activate hyphenate id id "again"
       (jane_activated.1, jane_activated.2)).2.2.
Proof.
  apply (activate_keeps_accounts_consistent hyphenate id id
           jane_activated.1 jane_activated.2 jane_linked "again").
  - vm_compute. reflexivity.
  - apply (bool_decide_unpack _). vm_compute. exact I.
  - apply (bool_decide_unpack _). vm_compute. exact I.
  - apply (bool_decide_unpack _). vm_compute. exact I.
Defined.

Lemma reactivation_orphans_first_account_witness :
  ∃ first second,
    (LoginRegistration.activate hyphenate id id "s3cret"
       (jane_registration, jane_db)).1 = Return first
    ∧ (LoginRegistration.activate hyphenate id id "again" jane_activated).1
      = Return second
    ∧ User.id first ≠ User.id second.
Proof.
  destruct (reactivation_orphans_first_account hyphenate id id
              jane_registration jane_db jane "s3cret" "again")
    as (first & second & k1 & k2 & st1 & st2 & Hrun1 & Hrun2 & Hid1 & Hid2
        & Hne & _).
  - vm_compute. reflexivity.
  - apply (bool_decide_unpack _). vm_compute. exact I.
  - exists first, second. unfold jane_activated. rewrite Hrun1. cbn [fst snd].
    rewrite Hrun2. cbn [fst]. rewrite Hid1, Hid2.
    split; [done|]. split; [done|]. congruence.
Defined.

(** ** [prepare_email] *)

Section registration_email.
Import LoginRegistration.
Variable render_to_string : string → list (string * template_value) → string.
Variable splitlines : string → list string.
Variable mail_result : Type.
Variable send_mail : string → string → string → list string → mail_result.
Variable get_current : outcome Site.t.
Variable DEFAULT_FROM_EMAIL : string.

Local Abbreviation prepare_email :=
  (prepare_email render_to_string splitlines mail_result send_mail get_current
     DEFAULT_FROM_EMAIL).

Local Abbreviation subject_for site :=
  (String.concat ""
     (splitlines
        (render_to_string
           "crm/login_registration/registration_email_subject.txt"
           [("site", site_value site)]))).

Local Abbreviation message_for conf self site c :=
  (render_to_string "crm/login_registration/registration_email.txt"
     [("activation_key", text_value (activation_key self));
      ("expiration_days", number_value (activation_days conf));
      ("site", site_value site);
      ("contact", contact_value c)]).

Lemma prepare_email_run conf send self db site c :
  get_current = Return site → the_contact self db = Some c →
  prepare_email conf send (self, db)
  = (Return
       (if send
        then inl (send_mail (subject_for site) (message_for conf self site c)
                    DEFAULT_FROM_EMAIL [Contact.email c])
        else inr (subject_for site, message_for conf self site c,
                  DEFAULT_FROM_EMAIL, [Contact.email c])),
     (set_contact_cache (Some c) self, db)).
Proof.
  intros Hsite Hc. unfold LoginRegistration.prepare_email. run. rewrite Hsite.
  rewrite (contact_run _ _ _ Hc). cbv beta iota.
  destruct send; run; rewrite (contact_cached _ _ c) by done; done.
Qed.

(** X7.  The activation e-mail and the expiry check agree.  With a
    current site and an existing contact, [prepare_email(send=False)]
    returns subject, message, sender and the contact's address as the only
    recipient, and [prepare_email(send=True)] hands exactly these four to
    [send_mail]; neither writes to the database.  The number of days the
    message is rendered with is the number of days after which
    [has_expired()] starts to return true. *)
Theorem prepare_email_announces_enforced_days conf self db site c :
  get_current = Return site → the_contact self db = Some c →
  ∃ subject message days,
    prepare_email conf false (self, db)
    = (Return (inr (subject, message, DEFAULT_FROM_EMAIL, [Contact.email c])),
       (set_contact_cache (Some c) self, db))
    ∧ prepare_email conf true (self, db)
      = (Return (inl (send_mail subject message DEFAULT_FROM_EMAIL
                        [Contact.email c])),
         (set_contact_cache (Some c) self, db))
    ∧ message
      = render_to_string "crm/login_registration/registration_email.txt"
          [("activation_key", text_value (activation_key self));
           ("expiration_days", number_value days);
           ("site", site_value site);
           ("contact", contact_value c)]
    ∧ (∀ now,
         Z.abs days ≤ datetime.max_timedelta_days →
         datetime.in_range (date self + days * datetime.us_per_day) →
         (has_expired conf now self = Return true
          ↔ days * datetime.us_per_day ≤ now - date self)).
Proof.
  intros Hsite Hc.
  exists (subject_for site), (message_for conf self site c), (activation_days conf).
  split; [by apply (prepare_email_run conf false)|].
  split; [by apply (prepare_email_run conf true)|].
  split; [done|].
  intros now Hdays Hrange. rewrite (has_expired_value conf now self Hdays Hrange).
  split.
  - by intros [= H%bool_decide_eq_true].
  - intros H. by rewrite bool_decide_eq_true_2.
Qed.

(** X8.  [prepare_email] gives up before anything is sent: without a
    current site it raises what [Site.objects.get_current()] raises, and
    with a site but without the registration's contact it raises
    [DoesNotExist]; in both cases whether [send] is set makes no
    difference and nothing is written. *)
Theorem prepare_email_fails_before_sending conf send self db :
  (∀ e, get_current = Raise e →
        prepare_email conf send (self, db) = (Raise e, (self, db)))
  ∧ (∀ site, get_current = Return site → the_contact self db = None →
             prepare_email conf send (self, db)
             = (Raise DoesNotExist, (self, db))).
Proof.
  split.
  - intros e Hsite. unfold LoginRegistration.prepare_email. run.
    by rewrite Hsite.
  - intros site Hsite Hnone. unfold LoginRegistration.prepare_email. run.
    rewrite Hsite. unfold the_contact in Hnone. unfold contact. run.
    destruct (contact_cache self); [done|]. by rewrite Hnone.
Qed.
End registration_email.

Lemma prepare_email_announces_enforced_days_witness :
  ∃ subject message,
    (LoginRegistration.prepare_email render_names (λ s, [s]) nat
       (λ _ _ _ recipients, length recipients) (Return example_site)
       "crm@example.com" settings.unset false (jane_registration, jane_db)).1
    = Return (inr (subject, message, "crm@example.com", ["jane@example.com"])).
Proof.
  destruct (prepare_email_announces_enforced_days render_names (λ s, [s]) nat
              (λ _ _ _ recipients, length recipients) (Return example_site)
              "crm@example.com" settings.unset jane_registration jane_db
              example_site jane)
    as (subject & message & days & Hrun & _).
  - reflexivity.
  - vm_compute. reflexivity.
  - exists subject, message. by rewrite Hrun.
Defined.

(** ** [RelationshipType.save] once more *)

Section relationship_type_again.
Import RelationshipType.
Variable slugify : string → string.

Lemma fresh_pk_positive {A} (table : gmap Z A) : 0 < orm.fresh_pk table.
Proof.
  unfold orm.fresh_pk. generalize ((map_to_list table).*1). intros keys.
  induction keys as [|k keys IH]; cbn [foldr]; lia.
Qed.

Lemma exclude_id_insert pk row (objects : gmap Z t) :
  orm.exclude_id pk (<[pk := row]> objects) = orm.exclude_id pk objects.
Proof.
  apply map_eq. intros k. apply option_eq. intros r.
  rewrite !exclude_id_lookup. destruct (decide (k = pk)) as [->|Hne].
  - split; intros [_ ?]; done.
  - by rewrite lookup_insert_ne.
Qed.

Lemma exclude_id_absent pk (objects : gmap Z t) :
  objects !! pk = None → orm.exclude_id pk objects = objects.
Proof.
  intros Hnone. apply map_eq. intros k. apply option_eq. intros r.
  rewrite exclude_id_lookup. split; [by intros [? _]|].
  intros Hk. split; [done|]. intros ->. congruence.
Qed.

Lemma unique_violated_insert {B} `{EqDecision B} (field : t → B) v pk row
    (objects : gmap Z t) :
  orm.unique_violated field v pk (<[pk := row]> objects)
  = orm.unique_violated field v pk objects.
Proof.
  apply Bool.eq_iff_eq_true. rewrite !unique_violated_true.
  split; intros (k & r & Hk & Hne & Hv); exists k, r.
  - by rewrite lookup_insert_ne in Hk.
  - by rewrite lookup_insert_ne.
Qed.

(** X9.  Saving is idempotent: once [save()] has succeeded on an instance
    (whose key is not the false key 0), saving the instance again as it
    is succeeds as well and changes neither its slug nor any row. *)
Theorem save_again_changes_nothing self objects :
  id self ≠ Some 0 →
  (save slugify (self, objects)).1 = Return tt →
  save slugify (save slugify (self, objects)).2
  = (Return tt, (save slugify (self, objects)).2).
Proof.
  intros Hkey. rewrite (save_unfold slugify self objects). cbn zeta.
  rewrite slug_constraint_holds, orb_false_r.
  destruct (orm.unique_violated name _ _ _) eqn:Hname; [done|]. intros _.
  cbn [snd]. set (pk := orm.pk_for_save (id self) objects).
  assert (pk ≠ 0) as Hpk.
  { unfold pk. destruct (id self) as [k|]; cbn; [congruence|].
    pose proof (fresh_pk_positive objects). lia. }
  match goal with
  | |- save _ (?self1, _) = _ => set (saved := self1)
  end.
  assert (orm.values_list slug (orm.exclude_id pk (<[pk := saved]> objects))
          = orm.values_list slug
              (match saved_pk (id self) with
               | Some k => orm.exclude_id k objects
               | None => objects
               end)) as Hqueryset.
  { rewrite exclude_id_insert. unfold pk.
    destruct (id self) as [k|] eqn:Hid; cbn [orm.pk_for_save].
    - unfold saved_pk, truthy.
      destruct (k =? 0) eqn:Hk; [apply Z.eqb_eq in Hk; congruence|done].
    - cbn. by rewrite exclude_id_absent by apply fresh_pk_unused. }
  rewrite (save_unfold slugify saved (<[pk := saved]> objects)). cbn zeta.
  rewrite slug_constraint_holds, orb_false_r.
  assert (saved_pk (id saved) = Some pk) as Hsaved.
  { cbn. unfold saved_pk, truthy.
    destruct (pk =? 0) eqn:Hk; [apply Z.eqb_eq in Hk; congruence|done]. }
  rewrite Hsaved. cbn [id saved set_id orm.pk_for_save name set_slug].
  fold pk. rewrite unique_violated_insert. fold pk in Hname. rewrite Hname.
  rewrite Hqueryset, insert_insert_eq. reflexivity.
Qed.
End relationship_type_again.

Lemma save_again_changes_nothing_witness :
  RelationshipType.save hyphenate
    (RelationshipType.save hyphenate (team_lead, boss_types)).2
  = (Return tt, (RelationshipType.save hyphenate (team_lead, boss_types)).2).
Proof.
  apply (save_again_changes_nothing hyphenate team_lead boss_types).
  - discriminate.
  - vm_compute. reflexivity.
Defined.

(** ** [install] *)

Section install_groups.
Import auth.

Lemma starts_with_spec pattern s :
  starts_with pattern s = true ↔ ∃ after, s = pattern +:+ after.
Proof.
  revert s. induction pattern as [|a pattern IH]; intros s; cbn.
  - split; [by exists s | done].
  - destruct s as [|b s]; cbn.
    + split; [done | by intros [after [=]]].
    + rewrite andb_true_iff, IH. split.
      * intros [Hab%Ascii.eqb_eq [after ->]]. subst. by exists after.
      * intros [after [= -> ->]]. split; [apply Ascii.eqb_refl | by exists after].
Qed.

Lemma contains_spec pattern s :
  contains pattern s = true ↔ has_substring pattern s.
Proof.
  unfold has_substring. induction s as [|b s IH]; cbn [contains].
  - rewrite orb_false_r, starts_with_spec. split.
    + intros [after Hs]. by exists "", after.
    + intros (before & after & Hs). destruct before as [|c before]; [|done].
      by exists after.
  - rewrite orb_true_iff, starts_with_spec, IH. split.
    + intros [[after Hs]|(before & after & ->)].
      * by exists "", after.
      * by exists (String b before), after.
    + intros (before & after & Hs). destruct before as [|c before].
      * left. by exists after.
      * right. injection Hs as -> ->. by exists before, after.
Qed.

Lemma permissions_added name db perms :
  auth_permission (foldl (permissions_add name) db perms) = auth_permission db
  ∧ django_content_type (foldl (permissions_add name) db perms)
    = django_content_type db
  ∧ (∀ other, other ≠ name →
       auth_group (foldl (permissions_add name) db perms) !! other
       = auth_group db !! other)
  ∧ auth_group (foldl (permissions_add name) db perms) !! name
    = (λ held : gset Z, list_to_set perms ∪ held) <$> auth_group db !! name.
Proof.
  revert db. induction perms as [|perm perms IH]; intros db; cbn [foldl].
  - split; [done|]. split; [done|]. split; [done|].
    destruct (auth_group db !! name); cbn; [|done].
    by rewrite (left_id_L ∅ (∪)).
  - destruct (IH (permissions_add name db perm)) as (Hp & Hc & Hother & Hname).
    rewrite Hp, Hc, Hname. cbn [permissions_add set_auth_group auth_permission
      django_content_type auth_group].
    split; [done|]. split; [done|]. split.
    + intros other Hne. rewrite Hother by done. cbn [permissions_add
        set_auth_group auth_group]. by rewrite lookup_alter_ne.
    + rewrite lookup_alter_eq. destruct (auth_group db !! name); cbn; [|done].
      by rewrite (assoc_L (∪)), (comm_L (∪) (list_to_set perms)).
Qed.

Lemma crm_and_auth_permissions_elem db perm :
  perm ∈ crm_and_auth_permissions db
  ↔ ∃ row content_type,
      auth_permission db !! perm = Some row
      ∧ django_content_type db !! Permission.content_type row = Some content_type
      ∧ (ContentType.app_label content_type = "crm"
         ∨ ContentType.app_label content_type = "auth").
Proof.
  unfold crm_and_auth_permissions, of_crm_or_auth. rewrite list_elem_of_fmap. split.
  - intros ([k row] & -> & [Hp Hin%elem_of_map_to_list]%list_elem_of_filter).
    cbn [fst snd] in *.
    destruct (django_content_type db !! _) as [content_type|] eqn:Hct; [|done].
    apply bool_decide_eq_true in Hp. by exists row, content_type.
  - intros (row & content_type & Hrow & Hct & Happ). exists (perm, row).
    split; [done|]. apply list_elem_of_filter. cbn [fst snd].
    split; [|by apply elem_of_map_to_list].
    rewrite Hct. by apply bool_decide_eq_true.
Qed.

Lemma pagelet_permissions_elem db perm :
  perm ∈ pagelet_permissions db
  ↔ ∃ row, auth_permission db !! perm = Some row
           ∧ has_substring "pagelet" (lower (Permission.codename row)).
Proof.
  unfold pagelet_permissions, icontains. rewrite list_elem_of_fmap. split.
  - intros ([k row] & -> & [Hp Hin%elem_of_map_to_list]%list_elem_of_filter).
    cbn [fst snd] in *. apply contains_spec in Hp. by exists row.
  - intros (row & Hrow & Hp). exists (perm, row). split; [done|].
    apply list_elem_of_filter. cbn [fst snd].
    split; [by apply contains_spec | by apply elem_of_map_to_list].
Qed.
(** One half of [install]: get or create the group and, when it was
    created, add the permissions [perms_of] selects. *)
Local Abbreviation provide name perms_of db :=
  (let '(created, db0) := get_or_create name db in
   if created then foldl (permissions_add name) db0 (perms_of db0) else db0).

Lemma install_in_two_steps db :
  install db
  = provide "Pagelet Admin" pagelet_permissions
      (provide "CRM Admin" crm_and_auth_permissions db).
Proof.
  unfold install. by destruct (get_or_create "CRM Admin" db) as [[] db0].
Qed.

Lemma provide_spec name (perms_of : tables → list Z) db :
  auth_permission (provide name perms_of db) = auth_permission db
  ∧ django_content_type (provide name perms_of db) = django_content_type db
  ∧ (∀ other, other ≠ name →
       auth_group (provide name perms_of db) !! other = auth_group db !! other)
  ∧ auth_group (provide name perms_of db) !! name
    = Some (match auth_group db !! name with
            | Some held => held
            | None =>
                list_to_set
                  (perms_of (set_auth_group (<[name := ∅]> (auth_group db)) db))
            end).
Proof.
  unfold get_or_create. destruct (auth_group db !! name) as [held|] eqn:Hname.
  - by rewrite Hname.
  - destruct (permissions_added name
                (set_auth_group (<[name := ∅]> (auth_group db)) db)
                (perms_of (set_auth_group (<[name := ∅]> (auth_group db)) db)))
      as (Hp & Hc & Hother & Hgroup).
    rewrite Hp, Hc, Hgroup. cbn [auth_permission django_content_type
      set_auth_group auth_group].
    split; [done|]. split; [done|]. split.
    + intros other Hne. rewrite Hother by done.
      cbn [set_auth_group auth_group]. by rewrite lookup_insert_ne.
    + rewrite lookup_insert_eq. cbn. by rewrite (right_id_L ∅ (∪)).
Qed.

Lemma install_with_both_groups db :
  is_Some (auth_group db !! "CRM Admin") →
  is_Some (auth_group db !! "Pagelet Admin") →
  install db = db.
Proof.
  intros [held1 H1] [held2 H2]. unfold install, get_or_create.
  by rewrite H1, H2.
Qed.

(** X10.  [install] touches only the groups CRM Admin and Pagelet Admin,
    and neither permissions nor content types.  A group of either name
    that exists already keeps the permissions it has, whatever they are.
    A group it creates gets exactly, for CRM Admin, the permissions whose
    content type belongs to the app crm or auth and, for Pagelet Admin,
    the permissions whose codename contains "pagelet" in any case. *)
Theorem install_provides_two_groups db :
  auth_permission (install db) = auth_permission db
  ∧ django_content_type (install db) = django_content_type db
  ∧ (∀ name, name ≠ "CRM Admin" → name ≠ "Pagelet Admin" →
       auth_group (install db) !! name = auth_group db !! name)
  ∧ (∀ held, auth_group db !! "CRM Admin" = Some held →
       auth_group (install db) !! "CRM Admin" = Some held)
  ∧ (∀ held, auth_group db !! "Pagelet Admin" = Some held →
       auth_group (install db) !! "Pagelet Admin" = Some held)
  ∧ (auth_group db !! "CRM Admin" = None →
     ∃ granted,
       auth_group (install db) !! "CRM Admin" = Some granted
       ∧ ∀ perm,
           perm ∈ granted
           ↔ ∃ row content_type,
               auth_permission db !! perm = Some row
               ∧ django_content_type db !! Permission.content_type row
                 = Some content_type
               ∧ (ContentType.app_label content_type = "crm"
                  ∨ ContentType.app_label content_type = "auth"))
  ∧ (auth_group db !! "Pagelet Admin" = None →
     ∃ granted,
       auth_group (install db) !! "Pagelet Admin" = Some granted
       ∧ ∀ perm,
           perm ∈ granted
           ↔ ∃ row, auth_permission db !! perm = Some row
                    ∧ has_substring "pagelet" (lower (Permission.codename row))).
Proof.
  rewrite install_in_two_steps.
  set (db1 := provide "CRM Admin" crm_and_auth_permissions db).
  destruct (provide_spec "CRM Admin" crm_and_auth_permissions db)
    as (Hp1 & Hc1 & Hother1 & Hgroup1).
  destruct (provide_spec "Pagelet Admin" pagelet_permissions db1)
    as (Hp2 & Hc2 & Hother2 & Hgroup2).
  fold db1 in Hp1, Hc1, Hother1, Hgroup1.
  assert (auth_group db1 !! "Pagelet Admin" = auth_group db !! "Pagelet Admin")
    as Hpagelet by (by apply Hother1).
  split; [by rewrite Hp2|]. split; [by rewrite Hc2|].
  split; [|split; [|split; [|split]]].
  - intros name Hne1 Hne2. rewrite Hother2 by done. by apply Hother1.
  - intros held Hheld. rewrite Hother2 by done. by rewrite Hgroup1, Hheld.
  - intros held Hheld. by rewrite Hgroup2, Hpagelet, Hheld.
  - intros Hnone. eexists. split.
    { rewrite Hother2 by done. by rewrite Hgroup1, Hnone. }
    intros perm. rewrite elem_of_list_to_set, crm_and_auth_permissions_elem.
    by cbn [set_auth_group auth_permission django_content_type].
  - intros Hnone. eexists. split.
    { by rewrite Hgroup2, Hpagelet, Hnone. }
    intros perm. rewrite elem_of_list_to_set, pagelet_permissions_elem.
    cbn [set_auth_group auth_permission]. by rewrite Hp1.
Qed.

(** X11.  [install] is idempotent: running it a second time changes
    nothing. *)
Theorem install_is_idempotent db : install (install db) = install db.
Proof.
  apply install_with_both_groups; rewrite install_in_two_steps.
  - destruct (provide_spec "Pagelet Admin" pagelet_permissions
                (provide "CRM Admin" crm_and_auth_permissions db))
      as (_ & _ & Hother & _).
    rewrite Hother by done.
    destruct (provide_spec "CRM Admin" crm_and_auth_permissions db)
      as (_ & _ & _ & ->).
    by eexists.
  - destruct (provide_spec "Pagelet Admin" pagelet_permissions
                (provide "CRM Admin" crm_and_auth_permissions db))
      as (_ & _ & _ & ->).
    by eexists.
Qed.
End install_groups.

(** ** [Contact.primary_phone] *)

Section phones.
Import Contact.





End phones.

(** * Further properties of forms.py *)

Section interaction_form_more.
Import forms forms.InteractionForm.


(** The contacts [save()] leaves, as one expression. *)
Lemma save_run self db data :
  cleaned_data self = Some data →
  let pk := orm.pk_for_save (Interaction.id (instance self)) (crm_interaction db) in
  let saved :=
    Interaction.mk (Some pk) (cleaned_date data) (cleaned_type data)
      (cleaned_completed data) (cleaned_project data) (cleaned_memo data) in
  let submitted : gset (Z * Z) :=
    list_to_set ((λ user, (pk, user)) <$> cleaned_contacts data)
    ∪ filter (λ p, p.1 ≠ pk) (interaction_contacts db) in
  let with_person : gset (Z * Z) :=
    match person self with
    | Some the_person => {[ (pk, Profile.user the_person) ]} ∪ submitted
    | None => submitted
    end in
  let with_both : gset (Z * Z) :=
    match crm_user self with
    | Some the_user => {[ (pk, the_user) ]} ∪ with_person
    | None => with_person
    end in
  save (self, db)
  = (Return saved,
     (set_instance saved self,
      set_interactions (<[pk := saved]> (crm_interaction db))
        (if truthy (Interaction.id (instance self)) then submitted else with_both)
        db)).
Proof.
  intros Hdata. unfold save. run.
  rewrite (super_save_run self db data Hdata). cbv beta iota zeta.
  destruct (truthy (Interaction.id (instance self))); cbn [negb]; [done|].
  destruct (person self), (crm_user self); unfold contacts_add; run; done.
Qed.
End interaction_form_more.

Section interaction_form_composed.
Import forms forms.InteractionForm.

Lemma saved_pk_None pk : saved_pk pk = None → truthy pk = false.
Proof.
  unfold saved_pk. destruct pk as [k|]; cbn; [|done]. by destruct (k =? 0).
Qed.

(** X14.  The contacts the form preselects for a new interaction are the
    users [save()] adds.  When the constructor, called without POST data
    for an instance without a true id, returns a form, that form was
    given a person and a CRM user and preselects exactly these two; and
    whatever contacts are then submitted, saving the form returns the
    interaction with both among its contacts. *)
Theorem preselected_contacts_are_saved db instance url person crm_user form :
  saved_pk (Interaction.id instance) = None →
  __init__ db false instance url person crm_user = Return form →
  ∃ the_person the_user,
    person = Some the_person ∧ crm_user = Some the_user
    ∧ contacts_initial_choices form
      = Some [pretty (Profile.user the_person); pretty the_user]
    ∧ ∀ data db0,
        ∃ saved pk st,
          save (set_cleaned_data (Some data) form, db0) = (Return saved, st)
          ∧ Interaction.id saved = Some pk
          ∧ (pk, Profile.user the_person) ∈ interaction_contacts st.2
          ∧ (pk, the_user) ∈ interaction_contacts st.2.
Proof.
  intros Hnew. unfold __init__. rewrite Hnew. cbn [negb].
  destruct person as [the_person|], crm_user as [the_user|];
    cbn [mbind outcome_bind]; try done.
  intros [= <-]. exists the_person, the_user.
  split; [done|]. split; [done|]. split; [done|]. intros data db0.
  eexists _, _, _. split; [by apply save_run|].
  cbn [set_cleaned_data InteractionForm.instance InteractionForm.person
       InteractionForm.crm_user Interaction.id snd
       interaction_contacts set_interactions].
  split; [done|]. rewrite (saved_pk_None _ Hnew).
  rewrite !elem_of_union, !elem_of_singleton. split; [right; by left | by left].
Qed.

(** X15.  Saving the same form twice undoes the additions of the first
    save.  The first save of a form for an unsaved interaction creates
    it; a second save of that form finds the instance saved, returns the
    same interaction and leaves as its contacts the submitted ones only:
    the person's user and the CRM user stay only if they were
    submitted. *)
Theorem second_save_keeps_submitted_contacts_only self db data :
  cleaned_data self = Some data →
  Interaction.id (instance self) = None →
  ∃ saved pk st1 st2,
    save (self, db) = (Return saved, st1)
    ∧ save st1 = (Return saved, st2)
    ∧ Interaction.id saved = Some pk
    ∧ ∀ user, (pk, user) ∈ interaction_contacts st2.2
              ↔ user ∈ cleaned_contacts data.
Proof.
  intros Hdata Hnew. eexists _, _, _, _.
  split; [by apply save_run|].
  pose proof (fresh_pk_positive (crm_interaction db)) as Hpositive.
  rewrite Hnew. cbn [orm.pk_for_save truthy].
  set (pk := orm.fresh_pk (crm_interaction db)) in *.
  split.
  { rewrite (save_run _ _ data) by done.
    cbn [set_instance instance Interaction.id orm.pk_for_save truthy
         crm_interaction set_interactions interaction_contacts].
    replace (pk =? 0) with false by (symmetry; apply Z.eqb_neq; lia).
    cbn [negb]. by rewrite insert_insert_eq. }
  split; [done|]. intros user.
  cbn [snd interaction_contacts set_interactions].
  rewrite submitted_contacts_elem. intuition congruence.
Qed.
End interaction_form_composed.

(** ** [EmailForm.clean_to] *)

Section email_recipient.
Import forms forms.EmailForm.
Variable get_full_name : User.t → string.
Variable unknown_user_error : exn.

(** X16.  Every recipient the e-mail form offers passes [clean_to]: for
    each choice, [clean_to] on its key returns the user the choice is
    labelled with.  [clean_to] never returns anything but the user stored
    under the key, and raises when there is none. *)
Theorem offered_recipients_pass_clean_to db business project uid label :
  (uid, label) ∈ to_choices (__init__ get_full_name db business project) →
  (∃ user,
     clean_to unknown_user_error db uid = Return user
     ∧ label = get_full_name user +:+ " (" +:+ User.email user +:+ ")")
  ∧ (∀ pk user, clean_to unknown_user_error db pk = Return user →
                auth_user db !! pk = Some user)
  ∧ (∀ pk, auth_user db !! pk = None →
           clean_to unknown_user_error db pk = Raise unknown_user_error).
Proof.
  intros Hchoice. split; [|split].
  - assert (∃ search, (uid, label) ∈ choice get_full_name <$> User_filter db search)
      as [search Hin].
    { destruct project as [project|]; [|destruct business as [business|]].
      - exists (Q_projects project).
        by rewrite <-(init_with_project get_full_name db business).
      - exists (Q_businesses business).
        by rewrite <-(init_with_business get_full_name db).
      - by apply elem_of_nil in Hchoice. }
    apply choices_of_search in Hin as (user & Hrow & _ & ->).
    exists user. unfold clean_to. by rewrite Hrow.
  - intros pk user. unfold clean_to. by destruct (auth_user db !! pk) as [u|]; intros [= <-].
  - intros pk Hnone. unfold clean_to. by rewrite Hnone.
Qed.
End email_recipient.

Lemma preselected_contacts_are_saved_witness :
  ∃ form,
    forms.InteractionForm.__init__ office_db false new_interaction "/contacts/"
      (Some (Profile.mk 3 7)) (Some 9) = Return form
    ∧ forms.InteractionForm.contacts_initial_choices form = Some ["7"; "9"].
Proof.
  destruct (forms.InteractionForm.__init__ office_db false new_interaction
              "/contacts/" (Some (Profile.mk 3 7)) (Some 9))
    as [form|e] eqn:Hinit; [|vm_compute in Hinit; discriminate].
  exists form. split; [reflexivity|].
  destruct (preselected_contacts_are_saved office_db new_interaction
              "/contacts/" (Some (Profile.mk 3 7)) (Some 9) form)
    as (the_person & the_user & [= <-] & [= <-] & Hinitial & _).
  - reflexivity.
  - exact Hinit.
  - rewrite Hinitial. vm_compute. reflexivity.
Defined.

Lemma second_save_keeps_submitted_contacts_only_witness :
  ∃ saved st1,
    forms.InteractionForm.save (submitted_form, office_db) = (Return saved, st1)
    ∧ (forms.InteractionForm.save st1).1 = Return saved.
Proof.
  destruct (second_save_keeps_submitted_contacts_only submitted_form office_db
              (forms.InteractionForm.mk_cleaned 0 "email" true (Some 1) [7] "hello"))
    as (saved & pk & st1 & st2 & Hrun1 & Hrun2 & _).
  - reflexivity.
  - reflexivity.
  - exists saved, st1. split; [exact Hrun1|]. by rewrite Hrun2.
Defined.

Lemma offered_recipients_pass_clean_to_witness :
  forms.EmailForm.clean_to DoesNotExist office_db 7 = Return ann.
Proof.
  destruct (offered_recipients_pass_clean_to User.first_name DoesNotExist
              office_db None (Some 1) 7 "Ann (ann@example.com)")
    as [(user & Hclean & _) _].
  - vm_compute. left.
  - rewrite Hclean. f_equal.
    unfold forms.EmailForm.clean_to in Hclean. vm_compute in Hclean.
    by injection Hclean as <-.
Defined.

(** ** The examples evaluated *)

Example install_on_site_permissions :
  auth.auth_group (install site_permissions) !! "CRM Admin" = Some {[ 11 ]}
  ∧ elements
      (default ∅ (auth.auth_group (install site_permissions) !! "Pagelet Admin"))
    ≡ₚ [13; 14].
Proof. split; [reflexivity|]. vm_compute. repeat constructor. Qed.

Example primary_phone_of_ann :
  Contact.primary_phone ann_locations ann_contact
  = Return (Some (Phone.mk "mobile" "555-0101"))
  ∧ Contact.primary_phone ann_locations jane = Raise AttributeError.
Proof. split; reflexivity. Qed.
